(** * OutboundOS: [parse_linkedin.py] and the profile parser it drives

    The development has two layers.

    - The command-line script [parse_linkedin.py] is embedded statement by
      statement in a small state-and-exception monad over the two output
      streams.  The extractor it imports is a parameter of the model.
    - The structural parser that the design document describes (normalizer,
      segmenter, date ranges, entry parsers, assembler) is modelled from
      that document. *)

From Stdlib Require Import String Ascii ZArith NArith Arith Bool Lia List.
From Stdlib Require Import Permutation DecimalString.
Import ListNotations.

Set Warnings "-register-all".


(* ===================================================================== *)
(** ** Python text and values *)
(* ===================================================================== *)

(** A Python [str] is a sequence of Unicode code points. *)
Definition pystr := list N.

Definition lit (s : string) : pystr :=
  map N_of_ascii (list_ascii_of_string s).

Definition pystr_eqb (a b : pystr) : bool :=
  if list_eq_dec N.eq_dec a b then true else false.

Definition ch_newline : N := 10.
Definition ch_quote : N := 34.
Definition ch_backslash : N := 92.

(** The values [json.dumps] is given in the script.  Floats are left out;
    [PObj cls] stands for any object the encoder has no rule for (a set, a
    class instance, ...) and carries its class name. *)
Inductive pyval : Type :=
| PNone
| PBool (b : bool)
| PInt (z : Z)
| PStr (s : pystr)
| PList (items : list pyval)
| PDict (items : list (pyval * pyval))
| PObj (cls : string).

(** The argument of [SystemExit]: [None], an integer ([True] and [False]
    are the integers 1 and 0), or any other object, kept by the text
    [str()] gives for it. *)
Inductive exit_code : Type :=
| CodeNone
| CodeInt (z : Z)
| CodeOther (text : pystr).

(** Exceptions.  [Exc cls msg] is an instance of [Exception] (of its
    subclass [cls]) whose [str()] is [msg]; the other two are instances of
    [BaseException] only. *)
Inductive pyexc : Type :=
| Exc (cls : string) (msg : pystr)
| SystemExit (code : exit_code)
| BaseExc (cls : string).

(** [isinstance(e, Exception)] *)
Definition is_Exception (e : pyexc) : bool :=
  match e with
  | Exc _ _ => true
  | SystemExit _ | BaseExc _ => false
  end.

(** [str(e)] *)
Definition py_str (e : pyexc) : pystr :=
  match e with
  | Exc _ msg => msg
  | SystemExit CodeNone => lit "None"
  | SystemExit (CodeInt z) => lit (NilZero.string_of_int (Z.to_int z))
  | SystemExit (CodeOther text) => text
  | BaseExc _ => []
  end.

Definition result (A : Type) : Type := (pyexc + A)%type.

(** Left-to-right traversal that stops at the first exception. *)
Definition map_result {A B : Type} (f : A -> result B)
  : list A -> result (list B) :=
  fix go (l : list A) : result (list B) :=
    match l with
    | [] => inr []
    | x :: t =>
        match f x with
        | inl e => inl e
        | inr y =>
            match go t with
            | inl e => inl e
            | inr ys => inr (y :: ys)
            end
        end
    end.

(* ===================================================================== *)
(** ** [json.dumps] with its default arguments *)
(* ===================================================================== *)

Definition hexdigit (d : N) : N :=
  if (d <? 10)%N then (48 + d)%N else (87 + d)%N.

(** ['\\u{0:04x}'.format(n)] for [n < 0x10000] *)
Definition u_escape (n : N) : pystr :=
  [ch_backslash; 117%N;
   hexdigit ((n / 4096) mod 16); hexdigit ((n / 256) mod 16);
   hexdigit ((n / 16) mod 16); hexdigit (n mod 16)]%N.

(** The replacement [py_encode_basestring_ascii] makes for one code point:
    [ESCAPE_DCT] first, printable ASCII unchanged, [\uXXXX] otherwise, as a
    surrogate pair above the basic plane. *)
Definition escape_char (c : N) : pystr :=
  if (c =? 34)%N then [ch_backslash; ch_quote]
  else if (c =? 92)%N then [ch_backslash; ch_backslash]
  else if (c =? 8)%N then [ch_backslash; 98%N]
  else if (c =? 12)%N then [ch_backslash; 102%N]
  else if (c =? 10)%N then [ch_backslash; 110%N]
  else if (c =? 13)%N then [ch_backslash; 114%N]
  else if (c =? 9)%N then [ch_backslash; 116%N]
  else if ((32 <=? c) && (c <=? 126))%N then [c]
  else if (c <? 65536)%N then u_escape c
  else
    let n := (c - 65536)%N in
    u_escape (N.lor 55296 (N.land (N.shiftr n 10) 1023))
      ++ u_escape (N.lor 56320 (N.land n 1023)).

Definition encode_str (s : pystr) : pystr :=
  ch_quote :: flat_map escape_char s ++ [ch_quote].

Definition int_repr (z : Z) : pystr :=
  lit (NilZero.string_of_int (Z.to_int z)).

Definition class_name (v : pyval) : string :=
  match v with
  | PNone => "NoneType"
  | PBool _ => "bool"
  | PInt _ => "int"
  | PStr _ => "str"
  | PList _ => "list"
  | PDict _ => "dict"
  | PObj cls => cls
  end.

(** A dictionary key is written as a JSON string; keys that are not
    [str], [int], [bool] or [None] raise [TypeError]. *)
Definition encode_key (k : pyval) : result pystr :=
  match k with
  | PStr s => inr (encode_str s)
  | PInt z => inr (encode_str (int_repr z))
  | PBool true => inr (encode_str (lit "true"))
  | PBool false => inr (encode_str (lit "false"))
  | PNone => inr (encode_str (lit "null"))
  | _ => inl (Exc "TypeError"
                (lit "keys must be str, int, float, bool or None, not "
                   ++ lit (class_name k)))
  end.

Fixpoint join (sep : pystr) (parts : list pystr) : pystr :=
  match parts with
  | [] => []
  | [p] => p
  | p :: rest => p ++ sep ++ join sep rest
  end.

Fixpoint json_dumps (v : pyval) : result pystr :=
  match v with
  | PNone => inr (lit "null")
  | PBool true => inr (lit "true")
  | PBool false => inr (lit "false")
  | PInt z => inr (int_repr z)
  | PStr s => inr (encode_str s)
  | PList items =>
      match map_result json_dumps items with
      | inl e => inl e
      | inr parts => inr (lit "[" ++ join (lit ", ") parts ++ lit "]")
      end
  | PDict items =>
      match
        map_result
          (fun kv : pyval * pyval =>
             match kv with
             | (k, x) =>
                 match encode_key k with
                 | inl e => inl e
                 | inr ks =>
                     match json_dumps x with
                     | inl e => inl e
                     | inr xs => inr (ks ++ lit ": " ++ xs)
                     end
                 end
             end)
          items
      with
      | inl e => inl e
      | inr parts => inr (lit "{" ++ join (lit ", ") parts ++ lit "}")
      end
  | PObj cls =>
      inl (Exc "TypeError"
             (lit "Object of type " ++ lit cls
                ++ lit " is not JSON serializable"))
  end.

(** A value the encoder accepts. *)
Definition dumps_ok (v : pyval) : Prop := exists s, json_dumps v = inr s.

(* ===================================================================== *)
(** ** The process: streams, exceptions, exit status *)
(* ===================================================================== *)

(** What one run of the interpreter has done so far: the text written to
    the two streams and the arguments [extract_linkedin_profile] was called
    with, latest call last. *)
Record world : Type := mkWorld {
  w_stdout : pystr;
  w_stderr : pystr;
  w_calls : list pystr
}.

Definition initial_world : world := mkWorld [] [] [].

(** A statement either completes with a value or raises. *)
Definition py (A : Type) : Type := world -> result A * world.

Definition ret {A : Type} (a : A) : py A := fun w => (inr a, w).

Definition bind {A B : Type} (m : py A) (k : A -> py B) : py B :=
  fun w =>
    match m w with
    | (inl e, w') => (inl e, w')
    | (inr a, w') => k a w'
    end.

Definition raise {A : Type} (e : pyexc) : py A := fun w => (inl e, w).

Definition lift {A : Type} (r : result A) : py A := fun w => (r, w).

Declare Scope py_scope.
Delimit Scope py_scope with py.
Notation "x <- m ;; k" := (bind m (fun x => k))
  (at level 61, m at next level, right associativity) : py_scope.
Notation "m ;; k" := (bind m (fun _ => k))
  (at level 61, right associativity) : py_scope.
Open Scope py_scope.

(** [print(s)] *)
Definition print (s : pystr) : py unit :=
  fun w =>
    (inr tt,
     mkWorld (w_stdout w ++ s ++ [ch_newline]) (w_stderr w) (w_calls w)).

(** [print(s, file=sys.stderr)] *)
Definition print_stderr (s : pystr) : py unit :=
  fun w =>
    (inr tt,
     mkWorld (w_stdout w) (w_stderr w ++ s ++ [ch_newline]) (w_calls w)).

(** [sys.exit(code)] raises [SystemExit]. *)
Definition sys_exit {A : Type} (code : Z) : py A :=
  raise (SystemExit (CodeInt code)).

(** [seq[i]] *)
Definition index {A : Type} (l : list A) (i : nat) : py A :=
  match nth_error l i with
  | Some a => ret a
  | None => raise (Exc "IndexError" (lit "list index out of range"))
  end.

(** [try: body  except Exception as e: handler(e)] *)
Definition try_except_Exception {A : Type} (body : py A)
  (handler : pyexc -> py A) : py A :=
  fun w =>
    match body w with
    | (inl e, w') => if is_Exception e then handler e w' else (inl e, w')
    | (inr a, w') => (inr a, w')
    end.

(** How the interpreter ends: with an exit status, or on an exception that
    nothing caught.  In the second case the interpreter prints the
    traceback of [e] on the error stream, after what the world holds, and
    ends with a failure status (on the interrupt signal for
    [KeyboardInterrupt]); the text of the traceback is not modelled. *)
Inductive termination : Type :=
| Exited (status : Z)
| Uncaught (e : pyexc).

(** The status the parent process sees for [sys.exit(z)]: the code is read
    as a C [long] and cut to its low eight bits; a code that does not fit
    a [long] is read as -1. *)
Definition exit_status (z : Z) : Z :=
  if ((- 2 ^ 63 <=? z) && (z <? 2 ^ 63))%Z then (z mod 256)%Z else 255%Z.

(** How the interpreter handles what the script ends with.  [SystemExit]
    ends the run without traceback: with status 0 for [None], with the
    status of the integer, and for any other object with status 1. *)
Definition terminate (r : result unit) : termination :=
  match r with
  | inr _ => Exited 0
  | inl (SystemExit CodeNone) => Exited 0
  | inl (SystemExit (CodeInt z)) => Exited (exit_status z)
  | inl (SystemExit (CodeOther _)) => Exited 1
  | inl e => Uncaught e
  end.

(** What the interpreter itself writes when it handles [SystemExit]: for
    a code that is neither [None] nor an integer, its text and a newline
    on the error stream. *)
Definition at_exit (r : result unit) (w : world) : world :=
  match r with
  | inl (SystemExit (CodeOther text)) =>
      mkWorld (w_stdout w) (w_stderr w ++ text ++ [ch_newline]) (w_calls w)
  | _ => w
  end.

(* ===================================================================== *)
(** ** [parse_linkedin.py] *)
(* ===================================================================== *)

Section Script.

(** [from linkedin_pdf_extractor import extract_linkedin_profile]: the
    imported function, by the value it returns or the exception it raises
    for a path.  The import is taken to have succeeded, and the function to
    leave the two streams alone. *)
Variable extract_linkedin_profile : pystr -> result pyval.

Definition call_extract (path : pystr) : py pyval :=
  fun w =>
    (extract_linkedin_profile path,
     mkWorld (w_stdout w) (w_stderr w) (w_calls w ++ [path])).

Definition usage_message : pystr := lit "Usage: parse_linkedin.py <pdf_path>".

Definition error_envelope (msg : pystr) : pyval :=
  PDict [(PStr (lit "error"), PStr msg)].

(** The text [json.dumps] gives for [{"error": msg}]. *)
Definition envelope_text (msg : pystr) : pystr :=
  lit "{" ++ encode_str (lit "error") ++ lit ": " ++ encode_str msg ++ lit "}".

(** The body of [if __name__ == '__main__':] for a given [sys.argv]. *)
Definition main (argv : list pystr) : py unit :=
  (if negb (length argv =? 2)%nat then
     s <- lift (json_dumps (error_envelope usage_message)) ;;
     print_stderr s ;;
     sys_exit 1
   else ret tt) ;;
  try_except_Exception
    (path <- index argv 1 ;;
     result <- call_extract path ;;
     s <- lift (json_dumps result) ;;
     print s)
    (fun e =>
       s <- lift (json_dumps (error_envelope (py_str e))) ;;
       print_stderr s ;;
       sys_exit 1).

Definition run_script (argv : list pystr) : termination * world :=
  let (r, w) := main argv initial_world in (terminate r, at_exit r w).

End Script.

(* ===================================================================== *)
(** ** What the script can be given and what it can write *)
(* ===================================================================== *)

(** The keys the encoder writes: [str], [int], [bool] and [None]. *)
Definition key_ok (k : pyval) : bool :=
  match k with
  | PNone | PBool _ | PInt _ | PStr _ => true
  | PList _ | PDict _ | PObj _ => false
  end.

(** Values without foreign objects whose dictionaries have only such
    keys. *)
Fixpoint serializable (v : pyval) : bool :=
  match v with
  | PNone | PBool _ | PInt _ | PStr _ => true
  | PList items => forallb serializable items
  | PDict items =>
      forallb (fun kv : pyval * pyval =>
                 match kv with
                 | (k, x) => key_ok k && serializable x
                 end) items
  | PObj _ => false
  end.

(** Printable ASCII, from the space to the tilde. *)
Definition printable (c : N) : bool := ((32 <=? c) && (c <=? 126))%N.

(** A stream that was left alone, or holds one line of printable ASCII
    closed by its newline. *)
Definition at_most_one_line (t : pystr) : Prop :=
  t = [] \/ exists s, t = s ++ [ch_newline] /\ forallb printable s = true.

(* ===================================================================== *)
(** ** The structural parser: data model *)
(* ===================================================================== *)

(** Modelled from the spec: the module [linkedin_pdf_extractor] is not part
    of the sources at hand, so everything from here to [serialize] follows
    the design document (sections 3 to 7); tables and thresholds the
    document leaves open are parameters. *)

(** Modelled from the spec: a TextFragment of the input contract,
    [{text, page_index, x, y, width, height, is_bold, font_size_bucket}]. *)
Record TextFragment : Type := mkFragment {
  tf_text : pystr;
  tf_page : nat;
  tf_x : Z;
  tf_y : Z;
  tf_width : Z;
  tf_height : Z;
  tf_bold : bool;
  tf_size : nat
}.

(** Modelled from the spec: a NormalizedLine, cleaned text with page index
    and style hints (bold, font-size bucket). *)
Record NormalizedLine : Type := mkLine {
  nl_text : pystr;
  nl_page : nat;
  nl_bold : bool;
  nl_size : nat
}.

(** Modelled from the spec: the normalized line sequence carries the
    BlankGap marker as a token of its own between retained lines. *)
Inductive token : Type :=
| Line (l : NormalizedLine)
| BlankGap.

(** Modelled from the spec: the closed set of known categories, the
    [Unknown] fallback and the synthetic [Header] pseudo-section. *)
Inductive Category : Type :=
| Summary | Experience | Education | Skills | Certifications.

Inductive SectionLabel : Type :=
| Header
| Known (c : Category)
| Unknown.

(** Modelled from the spec: a Section is a label and the ordered lines that
    belong to it; the line that opened it is kept apart from its body.
    The [Header] pseudo-section has no heading line. *)
Record Section : Type := mkSection {
  sec_label : SectionLabel;
  sec_heading : option NormalizedLine;
  sec_body : list token
}.

(** All tokens of a section, in document order. *)
Definition section_tokens (s : Section) : list token :=
  match sec_heading s with
  | Some h => Line h :: sec_body s
  | None => sec_body s
  end.

(** Modelled from the spec: DateRange, with optional start (year, optional
    month), optional end (the same, or the present sentinel) and optional
    duration (years, months). *)
Record YearMonth : Type := mkYM {
  ym_year : N;
  ym_month : option N
}.

Inductive RangeEnd : Type :=
| EndAt (d : YearMonth)
| Present.

Record Duration : Type := mkDuration {
  d_years : N;
  d_months : N
}.

Record DateRange : Type := mkRange {
  dr_start : option YearMonth;
  dr_end : option RangeEnd;
  dr_duration : option Duration
}.

(** Modelled from the spec: the typed entries of section 3. *)
Record ExperienceEntry : Type := mkExperience {
  ex_title : pystr;
  ex_company : pystr;
  ex_location : option pystr;
  ex_dates : list DateRange;
  ex_description : option pystr
}.

Record EducationEntry : Type := mkEducation {
  ed_institution : pystr;
  ed_degree : option pystr;
  ed_field : option pystr;
  ed_dates : option DateRange;
  ed_description : option pystr
}.

Record SkillEntry : Type := mkSkill {
  sk_name : pystr;
  sk_endorsements : option N
}.

Record CertificationEntry : Type := mkCertification {
  ce_name : pystr;
  ce_detail : option pystr
}.

(** Modelled from the spec: the error taxonomy of section 7.  The first two
    kinds are fatal, the other three are recorded as warnings. *)
Inductive Fatal : Type :=
| EmptyDocument
| MissingRequiredSection.

Inductive WarningKind : Type :=
| MalformedDateRange
| UnresolvedEntryField
| UnrecognizedHeading.

Record Warning : Type := mkWarning {
  warn_field : pystr;
  warn_kind : WarningKind
}.

(** Modelled from the spec: the ProfileRecord; an absent section gives an
    empty list. *)
Record ProfileRecord : Type := mkProfile {
  pr_name : pystr;
  pr_headline : option pystr;
  pr_location : option pystr;
  pr_summary : option pystr;
  pr_experience : list ExperienceEntry;
  pr_education : list EducationEntry;
  pr_skills : list SkillEntry;
  pr_certifications : list CertificationEntry;
  pr_warnings : list Warning
}.

(** Modelled from the spec: the error contract.  A parse ends in a tagged
    failure or in a record, never in both. *)
Inductive outcome (A : Type) : Type :=
| Failure (f : Fatal)
| Success (a : A).
Arguments Failure {A} f.
Arguments Success {A} a.

(* ===================================================================== *)
(** ** Text helpers *)
(* ===================================================================== *)

Definition is_space (c : N) : bool :=
  ((c =? 32) || (c =? 9) || (c =? 10) || (c =? 11) || (c =? 12) || (c =? 13)
   || (c =? 160))%N.

Definition is_digit (c : N) : bool := ((48 <=? c) && (c <=? 57))%N.

Definition is_lower (c : N) : bool := ((97 <=? c) && (c <=? 122))%N.

Definition to_lower (c : N) : N :=
  if ((65 <=? c) && (c <=? 90))%N then (c + 32)%N else c.

(** ASCII punctuation. *)
Definition is_punct (c : N) : bool :=
  (((33 <=? c) && (c <=? 47)) || ((58 <=? c) && (c <=? 64))
   || ((91 <=? c) && (c <=? 96)) || ((123 <=? c) && (c <=? 126)))%N.

(** Whitespace-separated words of a text; [cur] is the word being read,
    latest code point first. *)
Fixpoint words_from (cur : pystr) (t : pystr) : list pystr :=
  match t with
  | [] => match cur with [] => [] | _ => [rev cur] end
  | c :: t' =>
      if is_space c then
        match cur with
        | [] => words_from [] t'
        | _ => rev cur :: words_from [] t'
        end
      else words_from (c :: cur) t'
  end.

Definition words (t : pystr) : list pystr := words_from [] t.

(** Collapse repeated whitespace and trim. *)
Definition clean_text (t : pystr) : pystr := join [32%N] (words t).

Definition lower (t : pystr) : pystr := map to_lower t.

Definition mem_pystr (t : pystr) (l : list pystr) : bool :=
  existsb (pystr_eqb t) l.

Fixpoint assoc {A : Type} (t : pystr) (l : list (pystr * A)) : option A :=
  match l with
  | [] => None
  | (k, a) :: rest => if pystr_eqb t k then Some a else assoc t rest
  end.

(** Decimal value of a text made of digits only. *)
Definition digits_value (t : pystr) : option N :=
  match t with
  | [] => None
  | _ =>
      if forallb is_digit t
      then Some (fold_left (fun acc c => (10 * acc + (c - 48))%N) t 0%N)
      else None
  end.

Definition lines_of (ts : list token) : list NormalizedLine :=
  flat_map (fun t => match t with Line l => [l] | BlankGap => [] end) ts.

Definition count_lines (ts : list token) : nat := List.length (lines_of ts).

(** Bullet markers that open a description line. *)
Definition bullet_markers : list N := [8226; 45; 42; 9642; 9702]%N.

Definition is_bullet (t : pystr) : bool :=
  match t with
  | [] => false
  | c :: _ => existsb (N.eqb c) bullet_markers
  end.

(** Longest prefix whose elements satisfy [p], and what follows it. *)
Fixpoint span {A : Type} (p : A -> bool) (l : list A) : list A * list A :=
  match l with
  | [] => ([], [])
  | x :: t =>
      if p x then let (a, b) := span p t in (x :: a, b) else ([], l)
  end.

(* ===================================================================== *)
(** ** Date Range Parser (section 4.3) *)
(* ===================================================================== *)

(** Modelled from the spec: the locale tables of the Date Range Parser
    (month names, the present sentinel) and the unit words of a duration
    annotation.  Keys are lower case. *)
Record Locale : Type := mkLocale {
  month_names : list (pystr * N);
  present_words : list pystr;
  year_units : list pystr;
  month_units : list pystr
}.

Definition english : Locale :=
  mkLocale
    [(lit "jan", 1); (lit "january", 1); (lit "feb", 2); (lit "february", 2);
     (lit "mar", 3); (lit "march", 3); (lit "apr", 4); (lit "april", 4);
     (lit "may", 5); (lit "jun", 6); (lit "june", 6); (lit "jul", 7);
     (lit "july", 7); (lit "aug", 8); (lit "august", 8); (lit "sep", 9);
     (lit "sept", 9); (lit "september", 9); (lit "oct", 10);
     (lit "october", 10); (lit "nov", 11); (lit "november", 11);
     (lit "dec", 12); (lit "december", 12)]%N
    [lit "present"]
    [lit "yr"; lit "yrs"; lit "year"; lit "years"]
    [lit "mo"; lit "mos"; lit "month"; lit "months"].

(** A bound of a range: resolved to a year (with or without a month), or a
    month name alone, which is below year granularity. *)
Inductive bound : Type :=
| Resolved (d : YearMonth)
| MonthOnly (m : N).

(** Modelled from the spec: duration by subtraction of two resolved bounds,
    in months when both months are known and in whole years otherwise. *)
Definition derive_duration (s e : YearMonth) : option Duration :=
  match ym_month s, ym_month e with
  | Some ms, Some me =>
      let a := (12 * ym_year s + ms)%N in
      let b := (12 * ym_year e + me)%N in
      if (a <=? b)%N then Some (mkDuration ((b - a) / 12) ((b - a) mod 12))
      else None
  | _, _ =>
      if (ym_year s <=? ym_year e)%N
      then Some (mkDuration (ym_year e - ym_year s) 0)
      else None
  end.

Definition derived (s : option YearMonth) (e : option RangeEnd)
  : option Duration :=
  match s, e with
  | Some a, Some (EndAt b) => derive_duration a b
  | _, _ => None
  end.

Section DateRangeParser.

Variable loc : Locale.

Definition word_key (w : pystr) : pystr :=
  filter (fun c => negb (is_punct c)) (lower w).

Definition parse_year (w : pystr) : option N :=
  if (List.length w =? 4)%nat then digits_value w else None.

Definition parse_month (w : pystr) : option N :=
  assoc (word_key w) (month_names loc).

Definition is_present (w : pystr) : bool :=
  mem_pystr (word_key w) (present_words loc).

(** Separator tokens: [-], the en dash, [to]. *)
Definition is_separator (w : pystr) : bool :=
  mem_pystr (lower w) [[45%N]; [8211%N]; lit "to"].

(** A duration annotation opens at a middle dot or at a parenthesis. *)
Definition opens_annotation (w : pystr) : bool :=
  match w with
  | [183%N] => true
  | 40%N :: _ => true
  | _ => false
  end.

Definition strip_parens (w : pystr) : pystr :=
  filter (fun c => negb ((c =? 40) || (c =? 41))%N) w.

(** Modelled from the spec: the words of the range proper and, when there
    is one, the words of the trailing annotation. *)
Definition split_annotation (ws : list pystr)
  : list pystr * option (list pystr) :=
  let (range_ws, rest) := span (fun w => negb (opens_annotation w)) ws in
  match rest with
  | [] => (range_ws, None)
  | [183%N] :: ann => (range_ws, Some (map strip_parens ann))
  | ann => (range_ws, Some (map strip_parens ann))
  end.

Definition is_year_unit (w : pystr) : bool :=
  mem_pystr (word_key w) (year_units loc).

Definition is_month_unit (w : pystr) : bool :=
  mem_pystr (word_key w) (month_units loc).

(** [3 yrs 2 mos], [2 yrs], [6 mos] *)
Definition parse_duration (ws : list pystr) : option Duration :=
  match ws with
  | [n; u] =>
      match digits_value n with
      | Some v =>
          if is_year_unit u then Some (mkDuration v 0)
          else if is_month_unit u then Some (mkDuration 0 v)
          else None
      | None => None
      end
  | [n1; u1; n2; u2] =>
      match digits_value n1, digits_value n2 with
      | Some y, Some m =>
          if is_year_unit u1 && is_month_unit u2
          then Some (mkDuration y m) else None
      | _, _ => None
      end
  | _ => None
  end.

(** A month name optionally followed by a year, or a year alone. *)
Definition parse_bound (ws : list pystr) : option bound :=
  match ws with
  | [a] =>
      match parse_year a with
      | Some y => Some (Resolved (mkYM y None))
      | None =>
          match parse_month a with
          | Some m => Some (MonthOnly m)
          | None => None
          end
      end
  | [a; b] =>
      match parse_month a, parse_year b with
      | Some m, Some y => Some (Resolved (mkYM y (Some m)))
      | _, _ => None
      end
  | _ => None
  end.

Definition resolved (b : bound) : option YearMonth :=
  match b with
  | Resolved d => Some d
  | MonthOnly _ => None
  end.

(** The end of a range: the present sentinel or a bound. *)
Definition parse_end (ws : list pystr) : option (option RangeEnd) :=
  match ws with
  | [w] =>
      if is_present w then Some (Some Present)
      else option_map (fun b => option_map EndAt (resolved b))
             (parse_bound ws)
  | _ => option_map (fun b => option_map EndAt (resolved b)) (parse_bound ws)
  end.

(** Start and end of the range proper, [None] when it is malformed. *)
Definition parse_bounds (ws : list pystr)
  : option (option YearMonth * option RangeEnd) :=
  let (start_ws, rest) := span (fun w => negb (is_separator w)) ws in
  match parse_bound start_ws with
  | None => None
  | Some sb =>
      match rest with
      | [] => Some (resolved sb, None)
      | _ :: end_ws =>
          match parse_end end_ws with
          | None => None
          | Some e => Some (resolved sb, e)
          end
      end
  end.

(** The annotation of a span: [None] when the span has none,
    [Some None] when it has one that does not read as a duration. *)
Definition explicit_annotation (span_text : pystr)
  : option (option Duration) :=
  match snd (split_annotation (words span_text)) with
  | None => None
  | Some ann => Some (parse_duration ann)
  end.

(** Modelled from the spec: the Date Range Parser.  The annotation is
    parsed on its own and, when present, is the duration; otherwise the
    duration is derived from the bounds. *)
Definition parse_date_range (span_text : pystr) : option DateRange :=
  let (range_ws, ann) := split_annotation (words span_text) in
  match parse_bounds range_ws with
  | None => None
  | Some (s, e) =>
      match ann with
      | None => Some (mkRange s e (derived s e))
      | Some ann_ws =>
          match parse_duration ann_ws with
          | Some d => Some (mkRange s e (Some d))
          | None => None
          end
      end
  end.

Definition is_date_line (l : NormalizedLine) : bool :=
  match parse_date_range (nl_text l) with
  | Some _ => true
  | None => false
  end.

End DateRangeParser.

(* ===================================================================== *)
(** ** Heading vocabulary (section 4.2) *)
(* ===================================================================== *)

Section Vocabulary.

(** Modelled from the spec: the fixed vocabulary table, known heading
    phrases (with their localized variants) mapped to a category. *)
Variable vocabulary : list (pystr * Category).

(** Case-insensitive comparison key, after punctuation stripping. *)
Definition heading_key (t : pystr) : pystr :=
  clean_text (filter (fun c => negb (is_punct c)) (lower t)).

Definition phrase_matches (t phrase : pystr) : bool :=
  pystr_eqb (heading_key t) (heading_key phrase).

(** Among the entries that match, the longest phrase wins; of two equally
    long ones the earlier entry of the table stays. *)
Fixpoint best_match (t : pystr) (table : list (pystr * Category))
  (best : option (pystr * Category)) : option (pystr * Category) :=
  match table with
  | [] => best
  | (phrase, c) :: rest =>
      if phrase_matches t phrase then
        match best with
        | Some (p0, _) =>
            if (List.length p0 <? List.length phrase)%nat
            then best_match t rest (Some (phrase, c))
            else best_match t rest best
        | None => best_match t rest (Some (phrase, c))
        end
      else best_match t rest best
  end.

Definition vocab_match (t : pystr) : option Category :=
  option_map snd (best_match t vocabulary None).

End Vocabulary.

(* ===================================================================== *)
(** ** Fragment Normalizer (section 4.1) *)
(* ===================================================================== *)

Section Normalizer.

Variable vocabulary : list (pystr * Category).

(** Modelled from the spec: three heuristics of the Normalizer that the
    design document describes only by their purpose.  [coalesce] merges
    the fragments that are visually on one line, in reading order;
    [is_boilerplate] tells a recurring page header or footer or a
    page-number line, judged against all lines of the document;
    [continues_sentence] tells that a line goes on with the sentence of
    the line before it. *)
Variable coalesce : list (list TextFragment) -> list NormalizedLine.
Variable is_boilerplate : list NormalizedLine -> NormalizedLine -> bool.
Variable continues_sentence : pystr -> pystr -> bool.

(** Modelled from the spec: the minimum number of non-boilerplate lines
    a document must keep. *)
Variable min_lines : nat.

Definition ends_with_terminal (t : pystr) : bool :=
  match rev (clean_text t) with
  | [] => false
  | c :: _ => existsb (N.eqb c) [46; 33; 63; 58; 59]%N
  end.

Definition starts_lower (t : pystr) : bool :=
  match clean_text t with
  | [] => false
  | c :: _ => is_lower c
  end.

Definition is_blank (l : NormalizedLine) : bool :=
  match clean_text (nl_text l) with
  | [] => true
  | _ => false
  end.

(** A soft line-wrap: the line ends without terminal punctuation and the
    next one starts lower-case or continues the sentence, unless the next
    one matches a known heading or starts with a bullet marker. *)
Definition soft_wrap (prev next : NormalizedLine) : bool :=
  negb (is_blank prev) && negb (is_blank next)
  && negb (ends_with_terminal (nl_text prev))
  && (starts_lower (nl_text next)
      || continues_sentence (nl_text prev) (nl_text next))
  && negb (match vocab_match vocabulary (nl_text next) with
           | Some _ => true
           | None => false
           end)
  && negb (is_bullet (clean_text (nl_text next))).

Definition join_lines (prev next : NormalizedLine) : NormalizedLine :=
  mkLine (nl_text prev ++ [32%N] ++ nl_text next)
    (nl_page prev) (nl_bold prev) (nl_size prev).

Fixpoint merge_wraps_from (cur : NormalizedLine) (ls : list NormalizedLine)
  : list NormalizedLine :=
  match ls with
  | [] => [cur]
  | l :: rest =>
      if soft_wrap cur l then merge_wraps_from (join_lines cur l) rest
      else cur :: merge_wraps_from l rest
  end.

Definition merge_wraps (ls : list NormalizedLine) : list NormalizedLine :=
  match ls with
  | [] => []
  | l :: rest => merge_wraps_from l rest
  end.

(** Whitespace cleanup; an empty line is dropped and leaves one BlankGap
    marker between the retained lines around it. *)
Fixpoint to_tokens (emitted pending : bool) (ls : list NormalizedLine)
  : list token :=
  match ls with
  | [] => []
  | l :: rest =>
      match clean_text (nl_text l) with
      | [] => to_tokens emitted emitted rest
      | t =>
          (if pending then [BlankGap] else [])
            ++ Line (mkLine t (nl_page l) (nl_bold l) (nl_size l))
            :: to_tokens true false rest
      end
  end.

(** The token sequence the Normalizer keeps for a document. *)
Definition retained (doc : list (list TextFragment)) : list token :=
  let raw := coalesce doc in
  let kept := filter (fun l => negb (is_boilerplate raw l)) raw in
  to_tokens false false (merge_wraps kept).

(** Modelled from the spec: the Fragment Normalizer; fewer retained lines
    than the threshold is [EmptyDocument]. *)
Definition normalize (doc : list (list TextFragment))
  : outcome (list token) :=
  let ts := retained doc in
  if (count_lines ts <? min_lines)%nat then Failure EmptyDocument
  else Success ts.

End Normalizer.

(* ===================================================================== *)
(** ** Section Segmenter (section 4.2) *)
(* ===================================================================== *)

Section Segmenter.

Variable vocabulary : list (pystr * Category).

(** Modelled from the spec: the font-size bucket of body text; a line in
    a larger bucket carries the larger-style hint. *)
Variable body_size : nat.

Definition style_signal (l : NormalizedLine) : bool :=
  nl_bold l || (body_size <? nl_size l)%nat.

(** Bold or larger style, or alone on its line right after a BlankGap. *)
Definition structural_signal (after_gap : bool) (l : NormalizedLine)
  : bool :=
  style_signal l || after_gap.

(** Modelled from the spec: the heading rule of the Segmenter, as the
    section a line opens, if it opens one.  A vocabulary match needs
    a structural signal; a styled line with no match opens an [Unknown]
    section once the first recognized heading has been passed. *)
Definition opens (in_header after_gap : bool) (l : NormalizedLine)
  : option SectionLabel :=
  match vocab_match vocabulary (nl_text l) with
  | Some c =>
      if structural_signal after_gap l then Some (Known c) else None
  | None =>
      if negb in_header && style_signal l then Some Unknown else None
  end.

Definition is_header (lab : SectionLabel) : bool :=
  match lab with
  | Header => true
  | _ => false
  end.

(** Modelled from the spec: the scan of the Segmenter, one pass over the
    tokens.  [lab], [heading] and [body] describe the
    section being filled ([body] latest token first); [after_gap] tells
    that the token just read was a BlankGap. *)
Fixpoint scan (lab : SectionLabel) (heading : option NormalizedLine)
  (body : list token) (after_gap : bool) (ts : list token)
  : list Section :=
  match ts with
  | [] => [mkSection lab heading (rev body)]
  | BlankGap :: rest => scan lab heading (BlankGap :: body) true rest
  | Line l :: rest =>
      match opens (is_header lab) after_gap l with
      | Some lab' =>
          mkSection lab heading (rev body) :: scan lab' (Some l) [] false rest
      | None => scan lab heading (Line l :: body) false rest
      end
  end.

(** Modelled from the spec: the Section Segmenter.  The scan starts in
    the synthetic [Header] pseudo-section. *)
Definition segment (ts : list token) : list Section :=
  scan Header None [] false ts.

(** The gap flag after reading [ts], when it was [g] before. *)
Definition gap_after (g : bool) (ts : list token) : bool :=
  fold_left (fun _ t => match t with BlankGap => true | Line _ => false end)
    ts g.

(** No line of [body] opens a section, the body being read from the gap
    flag [after_gap] on. *)
Fixpoint quiet (in_header after_gap : bool) (body : list token) : bool :=
  match body with
  | [] => true
  | BlankGap :: rest => quiet in_header true rest
  | Line l :: rest =>
      match opens in_header after_gap l with
      | Some _ => false
      | None => quiet in_header false rest
      end
  end.

(** Every section of [rest] is opened by a heading line that [opens]
    accepts where the section before it ends, with the label [opens]
    gives it. *)
Fixpoint headings_follow (prev : Section) (rest : list Section) : Prop :=
  match rest with
  | [] => True
  | s :: rest' =>
      (exists l,
          sec_heading s = Some l
          /\ opens (is_header (sec_label prev))
               (gap_after false (sec_body prev)) l
             = Some (sec_label s))
      /\ headings_follow s rest'
  end.

(** The state of the scan is consistent: the body read so far is quiet and
    the gap flag is the one its last token leaves. *)
Definition scan_state_ok (lab : SectionLabel) (body : list token)
  (g : bool) : Prop :=
  quiet (is_header lab) false (rev body) = true
  /\ gap_after false (rev body) = g.

End Segmenter.

(** Position of the first token of section [j] in the document. *)
Definition offset (secs : list Section) (j : nat) : nat :=
  List.length (concat (map section_tokens (firstn j secs))).

(** Token [i] of the document is token [k] of section [j]. *)
Definition placed (secs : list Section) (i j k : nat) : Prop :=
  exists s,
    nth_error secs j = Some s
    /\ (k < List.length (section_tokens s))%nat
    /\ i = (offset secs j + k)%nat.

(* ===================================================================== *)
(** ** Entry Parsers (section 4.4) *)
(* ===================================================================== *)

(** What the parser of one section hands to the Assembler. *)
Inductive SectionOutput : Type :=
| NoOutput
| SummaryText (t : pystr)
| ExperienceList (es : list ExperienceEntry)
| EducationList (es : list EducationEntry)
| SkillList (es : list SkillEntry)
| CertificationList (es : list CertificationEntry).

Section EntryParsers.

Variable loc : Locale.

Definition flush (cur : list NormalizedLine) : list (list NormalizedLine) :=
  match cur with
  | [] => []
  | _ => [rev cur]
  end.

(** Modelled from the spec: the shared boundary rule.  A new entry starts
    at a line that comes right after a BlankGap, is no date-range line
    and is no bullet-prefixed continuation.  [cur] is the entry being
    read, latest line first. *)
Fixpoint split_entries (cur : list NormalizedLine) (after_gap : bool)
  (ts : list token) : list (list NormalizedLine) :=
  match ts with
  | [] => flush cur
  | BlankGap :: rest => split_entries cur true rest
  | Line l :: rest =>
      if after_gap && negb (is_date_line loc l)
         && negb (is_bullet (nl_text l))
      then flush cur ++ split_entries [l] false rest
      else split_entries (l :: cur) false rest
  end.

Definition entries_of (body : list token) : list (list NormalizedLine) :=
  split_entries [] false body.

Definition date_of (l : NormalizedLine) : list DateRange :=
  match parse_date_range loc (nl_text l) with
  | Some d => [d]
  | None => []
  end.

Definition description_of (ls : list NormalizedLine) : option pystr :=
  match ls with
  | [] => None
  | _ => Some (join [ch_newline] (map nl_text ls))
  end.

(** Modelled from the spec: the lines of one entry.  Structural fields
    come before the first date-range line, then the date ranges that
    follow one another there, then the description. *)
Definition entry_parts (g : list NormalizedLine)
  : list NormalizedLine * list DateRange * option pystr :=
  let (fields, rest) := span (fun l => negb (is_date_line loc l)) g in
  let (date_lines, desc) := span (is_date_line loc) rest in
  (fields, flat_map date_of date_lines, description_of desc).

(** Modelled from the spec: an Experience entry takes title and company
    from its first two structural lines and an optional location from
    the third; without the leading lines it cannot be built. *)
Definition build_experience (g : list NormalizedLine)
  : option ExperienceEntry :=
  match entry_parts g with
  | (title :: company :: more, dates, desc) =>
      Some (mkExperience (nl_text title) (nl_text company)
              (option_map nl_text (hd_error more)) dates desc)
  | _ => None
  end.

Definition date_warning (field : pystr) (dates : list DateRange)
  : list Warning :=
  match dates with
  | [] => [mkWarning field MalformedDateRange]
  | _ => []
  end.

(** Modelled from the spec: the failure policy, as one turn of the
    Experience loop.  A built entry is appended, an entry that cannot be
    built is dropped and leaves a warning. *)
Definition experience_step
  (acc : list ExperienceEntry * list Warning) (g : list NormalizedLine)
  : list ExperienceEntry * list Warning :=
  match build_experience g with
  | Some e =>
      (fst acc ++ [e],
       snd acc ++ date_warning (lit "experience") (ex_dates e))
  | None =>
      (fst acc, snd acc ++ [mkWarning (lit "experience") UnresolvedEntryField])
  end.

Definition parse_experience (body : list token)
  : list ExperienceEntry * list Warning :=
  fold_left experience_step (entries_of body) ([], []).

(** The entry an entry group contributes to the output, if any. *)
Definition kept (g : list NormalizedLine) : list ExperienceEntry :=
  match build_experience g with
  | Some e => [e]
  | None => []
  end.


(** Modelled from the spec: an Education entry needs its institution;
    degree and field of study are optional. *)
Definition build_education (g : list NormalizedLine)
  : option EducationEntry :=
  match entry_parts g with
  | (inst :: more, dates, desc) =>
      Some (mkEducation (nl_text inst)
              (option_map nl_text (nth_error more 0))
              (option_map nl_text (nth_error more 1))
              (hd_error dates) desc)
  | _ => None
  end.

Definition education_step
  (acc : list EducationEntry * list Warning) (g : list NormalizedLine)
  : list EducationEntry * list Warning :=
  match build_education g with
  | Some e => (fst acc ++ [e], snd acc)
  | None =>
      (fst acc, snd acc ++ [mkWarning (lit "education") UnresolvedEntryField])
  end.

Definition parse_education (body : list token)
  : list EducationEntry * list Warning :=
  fold_left education_step (entries_of body) ([], []).

(** Modelled from the spec: Skills and Certifications take one entry per
    line; a trailing parenthetical or middle-dot suffix goes to a field
    of its own. *)
Definition parse_skill (l : NormalizedLine) : SkillEntry :=
  let (name_ws, suffix) := split_annotation (words (nl_text l)) in
  mkSkill (join [32%N] name_ws)
    (match suffix with
     | Some (n :: _) => digits_value n
     | _ => None
     end).

Definition parse_certification (l : NormalizedLine) : CertificationEntry :=
  let (name_ws, suffix) := split_annotation (words (nl_text l)) in
  mkCertification (join [32%N] name_ws)
    (option_map (join [32%N]) suffix).

(** Modelled from the spec: one strategy per section kind, each a
    function of its own Section only.  The [Header] is left to the
    Assembler; an [Unknown] section gives no typed output and an
    informational warning. *)
Definition parse_section (s : Section) : SectionOutput * list Warning :=
  match sec_label s with
  | Header => (NoOutput, [])
  | Unknown =>
      (NoOutput,
       [mkWarning (match sec_heading s with
                   | Some h => nl_text h
                   | None => []
                   end) UnrecognizedHeading])
  | Known Summary =>
      (SummaryText (join [ch_newline] (map nl_text (lines_of (sec_body s)))),
       [])
  | Known Experience =>
      let (es, ws) := parse_experience (sec_body s) in (ExperienceList es, ws)
  | Known Education =>
      let (es, ws) := parse_education (sec_body s) in (EducationList es, ws)
  | Known Skills =>
      (SkillList (map parse_skill (lines_of (sec_body s))), [])
  | Known Certifications =>
      (CertificationList (map parse_certification (lines_of (sec_body s))),
       [])
  end.

End EntryParsers.

(* ===================================================================== *)
(** ** Profile Assembler (section 4.5) *)
(* ===================================================================== *)

Section Assembler.

(** Modelled from the spec: the location-like pattern of a short trailing
    Header line. *)
Variable location_like : pystr -> bool.

(** Modelled from the spec: the name rule of the Assembler.  The
    largest-style line among [best] and [ls], the earliest of them
    when several are equally large, with the lines that follow it. *)
Fixpoint largest_from (best : NormalizedLine) (after : list NormalizedLine)
  (ls : list NormalizedLine) : NormalizedLine * list NormalizedLine :=
  match ls with
  | [] => (best, after)
  | l :: rest =>
      if (nl_size best <? nl_size l)%nat then largest_from l rest rest
      else largest_from best after rest
  end.

Definition header_lines (secs : list Section) : list NormalizedLine :=
  match find (fun s => is_header (sec_label s)) secs with
  | Some s => lines_of (sec_body s)
  | None => []
  end.

(** Modelled from the spec: name, headline and location of the Header
    (largest-style line, the line after it, a location-like last line),
    with the warnings of the fallbacks. *)
Definition identity (hs : list NormalizedLine)
  : option (pystr * option pystr * option pystr * list Warning) :=
  match hs with
  | [] => None
  | h :: rest =>
      let (name_line, after) := largest_from h rest rest in
      let headline := option_map nl_text (hd_error after) in
      let location :=
        match rev (tl after) with
        | last_line :: _ =>
            if location_like (nl_text last_line)
            then Some (nl_text last_line) else None
        | [] => None
        end in
      Some (nl_text name_line, headline, location,
            (match headline with
             | None => [mkWarning (lit "headline") UnresolvedEntryField]
             | Some _ => []
             end)
            ++ (match location with
                | None => [mkWarning (lit "location") UnresolvedEntryField]
                | Some _ => []
                end))
  end.

Definition summary_of (o : SectionOutput) : list pystr :=
  match o with SummaryText t => [t] | _ => [] end.
Definition experience_of (o : SectionOutput) : list ExperienceEntry :=
  match o with ExperienceList es => es | _ => [] end.
Definition education_of (o : SectionOutput) : list EducationEntry :=
  match o with EducationList es => es | _ => [] end.
Definition skills_of (o : SectionOutput) : list SkillEntry :=
  match o with SkillList es => es | _ => [] end.
Definition certifications_of (o : SectionOutput) : list CertificationEntry :=
  match o with CertificationList es => es | _ => [] end.

(** Modelled from the spec: the Profile Assembler.  [outs] holds the
    output of every section, in section order.  An unresolved or empty
    name is [MissingRequiredSection]. *)
Definition assemble (secs : list Section)
  (outs : list (SectionOutput * list Warning)) : outcome ProfileRecord :=
  match identity (header_lines secs) with
  | None => Failure MissingRequiredSection
  | Some (name, headline, location, ws) =>
      match name with
      | [] => Failure MissingRequiredSection
      | _ =>
          Success
            (mkProfile name headline location
               (hd_error (flat_map (fun o => summary_of (fst o)) outs))
               (flat_map (fun o => experience_of (fst o)) outs)
               (flat_map (fun o => education_of (fst o)) outs)
               (flat_map (fun o => skills_of (fst o)) outs)
               (flat_map (fun o => certifications_of (fst o)) outs)
               (ws ++ flat_map snd outs))
      end
  end.

End Assembler.

(* ===================================================================== *)
(** ** The pipeline (sections 2 and 5) *)
(* ===================================================================== *)

(** The first result filed under index [i]. *)
Fixpoint arena_get {A : Type} (i : nat) (arena : list (nat * A)) : option A :=
  match arena with
  | [] => None
  | (j, a) :: rest => if (i =? j)%nat then Some a else arena_get i rest
  end.

(** The results of sections [0 .. n-1], read in section order. *)
Definition collect {A : Type} (arena : list (nat * A)) (n : nat) : list A :=
  flat_map (fun i => match arena_get i arena with
                     | Some a => [a]
                     | None => []
                     end) (seq 0 n).

(** A schedule is complete for [n] sections when the parser of each of
    them completes at some point of it. *)
Definition complete_schedule (order : list nat) (n : nat) : Prop :=
  forall i, (i < n)%nat -> In i order.


Section Pipeline.

Variable vocabulary : list (pystr * Category).
Variable body_size : nat.
Variable loc : Locale.
Variable location_like : pystr -> bool.

(** Modelled from the spec: the section parsers may complete in any order.
    [order] lists the section indices in the order their parsers complete;
    every result is filed under the index of its section. *)
Definition run_schedule (order : list nat) (secs : list Section)
  : list (nat * (SectionOutput * list Warning)) :=
  flat_map (fun i => match nth_error secs i with
                     | Some s => [(i, parse_section loc s)]
                     | None => []
                     end) order.

(** Modelled from the spec: from the Normalizer output to the record, the
    section parsers completing in the given order; the Assembler joins
    their results by section index. *)
Definition parse_lines_with (order : list nat) (ts : list token)
  : outcome ProfileRecord :=
  let secs := segment vocabulary body_size ts in
  assemble location_like secs
    (collect (run_schedule order secs) (List.length secs)).

(** The single forward pipeline: Segmenter, Entry Parsers in section
    order, Assembler. *)
Definition parse_lines (ts : list token) : outcome ProfileRecord :=
  parse_lines_with
    (seq 0 (List.length (segment vocabulary body_size ts))) ts.

Variable coalesce : list (list TextFragment) -> list NormalizedLine.
Variable is_boilerplate : list NormalizedLine -> NormalizedLine -> bool.
Variable continues_sentence : pystr -> pystr -> bool.
Variable min_lines : nat.

(** Modelled from the spec: the whole core, from the fragments of a
    document to a record or a tagged failure. *)
Definition parse_document (doc : list (list TextFragment))
  : outcome ProfileRecord :=
  match
    normalize vocabulary coalesce is_boilerplate continues_sentence
      min_lines doc
  with
  | Failure f => Failure f
  | Success ts => parse_lines ts
  end.

End Pipeline.

(* ===================================================================== *)
(** ** Output contract (section 6) *)
(* ===================================================================== *)

Definition key (s : string) : pyval := PStr (lit s).

Definition opt_to_py {A : Type} (f : A -> pyval) (o : option A) : pyval :=
  match o with
  | Some a => f a
  | None => PNone
  end.

Definition num_to_py (n : N) : pyval := PInt (Z.of_N n).

Definition ym_to_py (d : YearMonth) : pyval :=
  PDict [(key "year", num_to_py (ym_year d));
         (key "month", opt_to_py num_to_py (ym_month d))].

Definition end_to_py (e : RangeEnd) : pyval :=
  match e with
  | EndAt d => ym_to_py d
  | Present => PStr (lit "present")
  end.

Definition duration_to_py (d : Duration) : pyval :=
  PDict [(key "years", num_to_py (d_years d));
         (key "months", num_to_py (d_months d))].

Definition range_to_py (r : DateRange) : pyval :=
  PDict [(key "start", opt_to_py ym_to_py (dr_start r));
         (key "end", opt_to_py end_to_py (dr_end r));
         (key "duration", opt_to_py duration_to_py (dr_duration r))].

Definition experience_to_py (e : ExperienceEntry) : pyval :=
  PDict [(key "title", PStr (ex_title e));
         (key "company", PStr (ex_company e));
         (key "location", opt_to_py PStr (ex_location e));
         (key "date_ranges", PList (map range_to_py (ex_dates e)));
         (key "description", opt_to_py PStr (ex_description e))].

Definition education_to_py (e : EducationEntry) : pyval :=
  PDict [(key "institution", PStr (ed_institution e));
         (key "degree", opt_to_py PStr (ed_degree e));
         (key "field_of_study", opt_to_py PStr (ed_field e));
         (key "date_range", opt_to_py range_to_py (ed_dates e));
         (key "description", opt_to_py PStr (ed_description e))].

Definition skill_to_py (e : SkillEntry) : pyval :=
  PDict [(key "name", PStr (sk_name e));
         (key "endorsements", opt_to_py num_to_py (sk_endorsements e))].

Definition certification_to_py (e : CertificationEntry) : pyval :=
  PDict [(key "name", PStr (ce_name e));
         (key "detail", opt_to_py PStr (ce_detail e))].

Definition kind_name (k : WarningKind) : string :=
  match k with
  | MalformedDateRange => "MalformedDateRange"
  | UnresolvedEntryField => "UnresolvedEntryField"
  | UnrecognizedHeading => "UnrecognizedHeading"
  end.

Definition warning_to_py (w : Warning) : pyval :=
  PDict [(key "field", PStr (warn_field w));
         (key "message", PStr (lit (kind_name (warn_kind w))))].

(** Modelled from the spec: the ProfileRecord as a flat JSON-compatible
    structure with stable key names; empty sections are empty lists. *)
Definition record_to_py (r : ProfileRecord) : pyval :=
  PDict [(key "name", PStr (pr_name r));
         (key "headline", opt_to_py PStr (pr_headline r));
         (key "location", opt_to_py PStr (pr_location r));
         (key "summary", opt_to_py PStr (pr_summary r));
         (key "experience", PList (map experience_to_py (pr_experience r)));
         (key "education", PList (map education_to_py (pr_education r)));
         (key "skills", PList (map skill_to_py (pr_skills r)));
         (key "certifications",
          PList (map certification_to_py (pr_certifications r)));
         (key "warnings", PList (map warning_to_py (pr_warnings r)))].

Definition fatal_name (f : Fatal) : string :=
  match f with
  | EmptyDocument => "EmptyDocument"
  | MissingRequiredSection => "MissingRequiredSection"
  end.

(** The bytes a parse is written as: the record, or the tag of the
    failure. *)
Definition serialize (o : outcome ProfileRecord) : result pystr :=
  match o with
  | Success r => json_dumps (record_to_py r)
  | Failure f => json_dumps (PDict [(key "error", PStr (lit (fatal_name f)))])
  end.

(* ===================================================================== *)
(** ** Inputs by their shape *)
(* ===================================================================== *)

(** A word: not empty and free of whitespace. *)
Definition wordb (w : pystr) : bool :=
  match w with
  | [] => false
  | _ => forallb (fun c => negb (is_space c)) w
  end.

(** The text of a sequence of words, single spaces between them. *)
Definition text_of (ws : list pystr) : pystr := join [32%N] ws.





(* ===================================================================== *)
(** ** Sample tables and inputs *)
(* ===================================================================== *)

Definition sample_record : ProfileRecord :=
  mkProfile (lit "Jane Doe") (Some (lit "Software Engineer at Acme")) None
    None [] [] [mkSkill (lit "Rocq") (Some 3%N)] [] [].

Definition sample_vocabulary : list (pystr * Category) :=
  [(lit "Summary", Summary); (lit "Experience", Experience);
   (lit "Education", Education); (lit "Skills", Skills);
   (lit "Certifications", Certifications);
   (lit "Licenses & Certifications", Certifications)].

(** One line per fragment, in the order given. *)
Definition line_per_fragment (doc : list (list TextFragment))
  : list NormalizedLine :=
  map (fun f => mkLine (tf_text f) (tf_page f) (tf_bold f) (tf_size f))
    (concat doc).

(** Only page-number lines count as boilerplate. *)
Definition page_number_line (_ : list NormalizedLine) (l : NormalizedLine)
  : bool :=
  match digits_value (clean_text (nl_text l)) with
  | Some _ => true
  | None => false
  end.

Definition never_continues (_ _ : pystr) : bool := false.

Definition has_comma (t : pystr) : bool := existsb (N.eqb 44) t.

Definition plain (s : string) : NormalizedLine := mkLine (lit s) 0 false 1.
Definition bold (s : string) : NormalizedLine := mkLine (lit s) 0 true 1.
Definition large (s : string) : NormalizedLine := mkLine (lit s) 0 false 3.

Definition middle_dot : pystr := [183%N].

(** The scenario of section 8 of the design document. *)
Definition jane_doe : list token :=
  [Line (plain "Jane Doe"); Line (plain "Software Engineer at Acme");
   Line (plain "San Francisco, CA");
   Line (bold "Experience");
   Line (plain "Software Engineer"); Line (plain "Acme");
   Line (mkLine (lit "Jan 2020 - Present " ++ middle_dot ++ lit " 2 yrs")
           0 false 1);
   Line (bold "Skills");
   Line (plain "Rocq")].

(** A document that holds nothing but its page numbers. *)
Definition page_numbers_only : list (list TextFragment) :=
  [[mkFragment (lit "1") 0 500 20 10 10 false 1];
   [mkFragment (lit " 2 ") 1 500 20 10 10 false 1]].

(* ===================================================================== *)
(** * Properties of [parse_linkedin.py] *)
(* ===================================================================== *)

Lemma map_result_ok {A B : Type} (f : A -> result B) (l : list A) :
  Forall (fun x => exists y, f x = inr y) l ->
  exists ys, map_result f l = inr ys.
Proof.
  induction 1 as [| x t [y Hy] _ [ys IH]]; simpl.
  - now exists [].
  - rewrite Hy, IH. now exists (y :: ys).
Qed.

Lemma dumps_ok_list (items : list pyval) :
  Forall dumps_ok items -> dumps_ok (PList items).
Proof.
  intros H. destruct (map_result_ok json_dumps items H) as [parts Hp].
  unfold dumps_ok. simpl. rewrite Hp. eauto.
Qed.

Lemma dumps_ok_map {A : Type} (f : A -> pyval) (l : list A) :
  (forall a, dumps_ok (f a)) -> dumps_ok (PList (map f l)).
Proof.
  intros H. apply dumps_ok_list. apply Forall_forall.
  intros v Hv. apply in_map_iff in Hv. destruct Hv as [a [<- _]]. apply H.
Qed.

Lemma dumps_ok_dict (items : list (pyval * pyval)) :
  Forall (fun kv => (exists s, fst kv = PStr s) /\ dumps_ok (snd kv)) items ->
  dumps_ok (PDict items).
Proof.
  intros H. unfold dumps_ok. simpl.
  match goal with
  | |- context [map_result ?f items] =>
      destruct (@map_result_ok _ _ f items) as [parts Hp]
  end.
  - eapply Forall_impl; [| exact H].
    intros [k v] [[s Hk] [xs Hv]]. simpl in Hk, Hv. subst k.
    simpl. rewrite Hv. eauto.
  - rewrite Hp. eauto.
Qed.

Lemma dumps_ok_opt {A : Type} (f : A -> pyval) (o : option A) :
  (forall a, dumps_ok (f a)) -> dumps_ok (opt_to_py f o).
Proof.
  intros H. destruct o as [a |]; simpl; [apply H | now eexists].
Qed.

Lemma dumps_ok_str (s : pystr) : dumps_ok (PStr s).
Proof. now eexists. Qed.

Lemma dumps_ok_num (n : N) : dumps_ok (num_to_py n).
Proof. now eexists. Qed.

Ltac dict_ok :=
  apply dumps_ok_dict;
  repeat (apply Forall_cons; [split; [eexists; reflexivity | simpl] |]);
  try apply Forall_nil.

Lemma dumps_ok_ym (d : YearMonth) : dumps_ok (ym_to_py d).
Proof.
  unfold ym_to_py. dict_ok.
  - apply dumps_ok_num.
  - apply dumps_ok_opt, dumps_ok_num.
Qed.

Lemma dumps_ok_range (r : DateRange) : dumps_ok (range_to_py r).
Proof.
  unfold range_to_py. dict_ok.
  - apply dumps_ok_opt, dumps_ok_ym.
  - apply dumps_ok_opt. intros [d |]; [apply dumps_ok_ym | apply dumps_ok_str].
  - apply dumps_ok_opt. intros d. unfold duration_to_py.
    dict_ok; apply dumps_ok_num.
Qed.

Lemma dumps_ok_experience (e : ExperienceEntry) : dumps_ok (experience_to_py e).
Proof.
  unfold experience_to_py. dict_ok;
    try apply dumps_ok_str; try (apply dumps_ok_opt, dumps_ok_str).
  apply dumps_ok_map, dumps_ok_range.
Qed.

Lemma dumps_ok_education (e : EducationEntry) : dumps_ok (education_to_py e).
Proof.
  unfold education_to_py. dict_ok;
    try apply dumps_ok_str; try (apply dumps_ok_opt, dumps_ok_str).
  apply dumps_ok_opt, dumps_ok_range.
Qed.

(** Every ProfileRecord of the output contract is accepted by
    [json.dumps]. *)
Lemma dumps_ok_record (r : ProfileRecord) : dumps_ok (record_to_py r).
Proof.
  unfold record_to_py. dict_ok;
    try apply dumps_ok_str; try (apply dumps_ok_opt, dumps_ok_str);
    apply dumps_ok_map; intros x.
  - apply dumps_ok_experience.
  - apply dumps_ok_education.
  - unfold skill_to_py. dict_ok;
      [apply dumps_ok_str | apply dumps_ok_opt, dumps_ok_num].
  - unfold certification_to_py. dict_ok;
      [apply dumps_ok_str | apply dumps_ok_opt, dumps_ok_str].
  - unfold warning_to_py. dict_ok; apply dumps_ok_str.
Qed.

Lemma dumps_envelope (msg : pystr) :
  json_dumps (error_envelope msg) = inr (envelope_text msg).
Proof. reflexivity. Qed.

Section ScriptFacts.

Variable extract : pystr -> result pyval.

(** The run of the script on two arguments, by what the extractor does. *)
Lemma run_script_raises (prog path : pystr) (e : pyexc) :
  extract path = inl e ->
  is_Exception e = true ->
  run_script extract [prog; path]
  = (Exited 1,
     mkWorld [] (envelope_text (py_str e) ++ [ch_newline]) [path]).
Proof.
  intros He Hexc.
  unfold run_script, main, bind, try_except_Exception, call_extract, index, ret.
  simpl. rewrite He. simpl. rewrite Hexc. reflexivity.
Qed.

Lemma run_script_returns (prog path : pystr) (v : pyval) (s : pystr) :
  extract path = inr v ->
  json_dumps v = inr s ->
  run_script extract [prog; path]
  = (Exited 0, mkWorld (s ++ [ch_newline]) [] [path]).
Proof.
  intros Hv Hs.
  unfold run_script, main, bind, try_except_Exception, call_extract, index,
    ret, lift, print.
  simpl. rewrite Hv. simpl. rewrite Hs. reflexivity.
Qed.

(** A returned value that [json.dumps] rejects ends like a failure of the
    extractor: the [TypeError] is raised inside the [try]. *)
Lemma run_script_unserializable (prog path : pystr) (v : pyval) (e : pyexc) :
  extract path = inr v ->
  json_dumps v = inl e ->
  is_Exception e = true ->
  run_script extract [prog; path]
  = (Exited 1,
     mkWorld [] (envelope_text (py_str e) ++ [ch_newline]) [path]).
Proof.
  intros Hv He Hexc.
  unfold run_script, main, bind, try_except_Exception, call_extract, index,
    ret, lift, print.
  simpl. rewrite Hv. simpl. rewrite He. simpl. rewrite Hexc. reflexivity.
Qed.

Lemma run_script_wrong_argc (argv : list pystr) :
  List.length argv <> 2%nat ->
  run_script extract argv
  = (Exited 1,
     mkWorld [] (envelope_text usage_message ++ [ch_newline]) []).
Proof.
  intros Hlen. unfold run_script, main.
  destruct (Nat.eqb_spec (List.length argv) 2) as [Heq | _];
    [contradiction |].
  reflexivity.
Qed.

(** However the run ends, it is not on an instance of [Exception]. *)
Lemma run_script_no_uncaught_Exception (argv : list pystr) (e : pyexc) :
  fst (run_script extract argv) = Uncaught e ->
  is_Exception e = false.
Proof.
  destruct (Nat.eq_dec (List.length argv) 2) as [Hlen | Hlen].
  - destruct argv as [| prog [| path [| x rest]]]; try discriminate Hlen.
    unfold run_script, main, bind, try_except_Exception, call_extract,
      index, ret, lift, print.
    simpl.
    destruct (extract path) as [e0 | v]; simpl.
    + destruct e0 as [cls msg | [| z | text] | cls]; simpl;
        try discriminate.
      intros H. injection H as <-. reflexivity.
    + destruct (json_dumps v) as [e1 | s]; simpl; try discriminate.
      destruct e1 as [cls msg | [| z | text] | cls]; simpl;
        try discriminate.
      intros H. injection H as <-. reflexivity.
  - rewrite (run_script_wrong_argc argv Hlen). discriminate.
Qed.

End ScriptFacts.

(** C9: when [sys.argv] does not hold exactly the program name and one
    argument, the script prints the usage error as a JSON object on the
    error stream, prints nothing on the output stream, exits with status 1
    and has not called [extract_linkedin_profile]. *)
Theorem usage_error_without_call
  (extract : pystr -> result pyval) (argv : list pystr) :
  List.length argv <> 2%nat ->
  run_script extract argv
  = (Exited 1,
     mkWorld [] (envelope_text usage_message ++ [ch_newline]) []).
Proof. apply run_script_wrong_argc. Qed.

Lemma usage_error_without_call_witness :
  List.length [lit "parse_linkedin.py"] <> 2%nat
  /\ run_script (fun _ => inr PNone) [lit "parse_linkedin.py"]
     = (Exited 1,
        mkWorld [] (envelope_text usage_message ++ [ch_newline]) []).
Proof.
  split.
  - simpl. discriminate.
  - apply (usage_error_without_call (fun _ => inr PNone)
             [lit "parse_linkedin.py"]).
    simpl. discriminate.
Defined.

(** C10: every exception that is an instance of [Exception] and is raised
    by [extract_linkedin_profile], whatever its class, is caught: the
    script prints [{"error": str(e)}] on the error stream, prints nothing
    on the output stream and exits with status 1.  On no argument vector
    does the script end on an uncaught instance of [Exception]. *)
Theorem exception_becomes_error_envelope (extract : pystr -> result pyval) :
  (forall (prog path : pystr) (e : pyexc),
      extract path = inl e ->
      is_Exception e = true ->
      run_script extract [prog; path]
      = (Exited 1,
         mkWorld [] (envelope_text (py_str e) ++ [ch_newline]) [path]))
  /\ (forall (argv : list pystr) (e : pyexc),
         fst (run_script extract argv) = Uncaught e ->
         is_Exception e = false).
Proof.
  split.
  - intros prog path e He Hexc. now apply run_script_raises.
  - intros argv e. apply run_script_no_uncaught_Exception.
Qed.

Lemma exception_becomes_error_envelope_witness :
  run_script (fun _ => inl (Exc "ValueError" (lit "not a PDF")))
    [lit "parse_linkedin.py"; lit "cv.pdf"]
  = (Exited 1,
     mkWorld [] (envelope_text (lit "not a PDF") ++ [ch_newline])
       [lit "cv.pdf"]).
Proof.
  apply (proj1 (exception_becomes_error_envelope
                  (fun _ => inl (Exc "ValueError" (lit "not a PDF"))))
           (lit "parse_linkedin.py") (lit "cv.pdf")
           (Exc "ValueError" (lit "not a PDF")));
    reflexivity.
Defined.

(** C1: on a document path, when the extractor fails with an exception
    (the fatal [EmptyDocument] and [MissingRequiredSection] or any other
    class of [Exception]) the script writes no record: the output stream
    stays empty, the error stream gets the JSON error envelope as one line
    and the exit status is 1.  When the extractor returns a value that
    [json.dumps] accepts, as every ProfileRecord of the output contract
    is, the exit status is 0, the error stream stays empty and the output
    stream holds the serialized value as one line and nothing else. *)
Theorem failure_and_success_surfacing
  (extract : pystr -> result pyval) (prog path : pystr) :
  (forall (cls : string) (msg : pystr),
      extract path = inl (Exc cls msg) ->
      run_script extract [prog; path]
      = (Exited 1, mkWorld [] (envelope_text msg ++ [ch_newline]) [path]))
  /\ (forall (v : pyval) (s : pystr),
         extract path = inr v ->
         json_dumps v = inr s ->
         run_script extract [prog; path]
         = (Exited 0, mkWorld (s ++ [ch_newline]) [] [path]))
  /\ (forall r : ProfileRecord,
         extract path = inr (record_to_py r) ->
         exists s : pystr,
           json_dumps (record_to_py r) = inr s
           /\ run_script extract [prog; path]
              = (Exited 0, mkWorld (s ++ [ch_newline]) [] [path])).
Proof.
  split; [| split].
  - intros cls msg He.
    now apply (run_script_raises extract prog path (Exc cls msg) He).
  - intros v s Hv Hs. now apply (run_script_returns extract prog path v s).
  - intros r Hr. destruct (dumps_ok_record r) as [s Hs].
    exists s. split; [exact Hs |].
    now apply (run_script_returns extract prog path (record_to_py r) s Hr).
Qed.

Lemma failure_and_success_surfacing_witness :
  (run_script (fun _ => inl (Exc (fatal_name EmptyDocument) (lit "empty")))
     [lit "parse_linkedin.py"; lit "cv.pdf"]
   = (Exited 1,
      mkWorld [] (envelope_text (lit "empty") ++ [ch_newline])
        [lit "cv.pdf"]))
  /\ (exists s : pystr,
         json_dumps (record_to_py sample_record) = inr s
         /\ run_script (fun _ => inr (record_to_py sample_record))
              [lit "parse_linkedin.py"; lit "cv.pdf"]
            = (Exited 0, mkWorld (s ++ [ch_newline]) [] [lit "cv.pdf"])).
Proof.
  split.
  - apply (proj1 (failure_and_success_surfacing
                    (fun _ => inl (Exc (fatal_name EmptyDocument)
                                     (lit "empty")))
                    (lit "parse_linkedin.py") (lit "cv.pdf"))
             (fatal_name EmptyDocument) (lit "empty")).
    reflexivity.
  - apply (proj2 (proj2 (failure_and_success_surfacing
                           (fun _ => inr (record_to_py sample_record))
                           (lit "parse_linkedin.py") (lit "cv.pdf")))
             sample_record).
    reflexivity.
Defined.

(* ===================================================================== *)
(** * Properties of the structural parser *)
(* ===================================================================== *)

Section NormalizerFacts.

Variable vocabulary : list (pystr * Category).
Variable body_size : nat.
Variable loc : Locale.
Variable location_like : pystr -> bool.
Variable coalesce : list (list TextFragment) -> list NormalizedLine.
Variable is_boilerplate : list NormalizedLine -> NormalizedLine -> bool.
Variable continues_sentence : pystr -> pystr -> bool.
Variable min_lines : nat.

Lemma normalize_below_threshold (doc : list (list TextFragment)) :
  (count_lines (retained vocabulary coalesce is_boilerplate
                  continues_sentence doc) < min_lines)%nat ->
  normalize vocabulary coalesce is_boilerplate continues_sentence
    min_lines doc = Failure EmptyDocument.
Proof.
  intros H. unfold normalize.
  destruct (Nat.ltb_spec
              (count_lines (retained vocabulary coalesce is_boilerplate
                              continues_sentence doc)) min_lines);
    [reflexivity | lia].
Qed.

Lemma parse_document_below_threshold (doc : list (list TextFragment)) :
  (count_lines (retained vocabulary coalesce is_boilerplate
                  continues_sentence doc) < min_lines)%nat ->
  parse_document vocabulary body_size loc location_like coalesce
    is_boilerplate continues_sentence min_lines doc
  = Failure EmptyDocument.
Proof.
  intros H. unfold parse_document.
  now rewrite normalize_below_threshold.
Qed.

End NormalizerFacts.

(** C2: with a threshold of at least one line, a document whose
    normalization keeps no non-boilerplate line fails with
    [EmptyDocument]; the parse returns no record, partial or not. *)
Theorem empty_document_is_fatal
  (vocabulary : list (pystr * Category)) (body_size : nat) (loc : Locale)
  (location_like : pystr -> bool)
  (coalesce : list (list TextFragment) -> list NormalizedLine)
  (is_boilerplate : list NormalizedLine -> NormalizedLine -> bool)
  (continues_sentence : pystr -> pystr -> bool) (min_lines : nat)
  (doc : list (list TextFragment)) :
  (0 < min_lines)%nat ->
  count_lines (retained vocabulary coalesce is_boilerplate
                 continues_sentence doc) = 0%nat ->
  parse_document vocabulary body_size loc location_like coalesce
    is_boilerplate continues_sentence min_lines doc
  = Failure EmptyDocument
  /\ (forall r : ProfileRecord,
         parse_document vocabulary body_size loc location_like coalesce
           is_boilerplate continues_sentence min_lines doc
         <> Success r).
Proof.
  intros Hmin Hzero.
  assert (H : parse_document vocabulary body_size loc location_like coalesce
                is_boilerplate continues_sentence min_lines doc
              = Failure EmptyDocument).
  { apply parse_document_below_threshold. rewrite Hzero. exact Hmin. }
  split; [exact H |].
  intros r Hr. rewrite H in Hr. discriminate Hr.
Qed.

Lemma empty_document_is_fatal_witness :
  parse_document sample_vocabulary 1 english has_comma line_per_fragment
    page_number_line never_continues 1 page_numbers_only
  = Failure EmptyDocument
  /\ (forall r : ProfileRecord,
         parse_document sample_vocabulary 1 english has_comma
           line_per_fragment page_number_line never_continues 1
           page_numbers_only
         <> Success r).
Proof.
  apply (empty_document_is_fatal sample_vocabulary 1 english has_comma
           line_per_fragment page_number_line never_continues 1
           page_numbers_only).
  - lia.
  - reflexivity.
Defined.

(** *** Segmenter: the sections partition the token sequence *)

Lemma section_tokens_app (lab : SectionLabel) (h : option NormalizedLine)
  (b1 b2 : list token) :
  section_tokens (mkSection lab h (b1 ++ b2))
  = section_tokens (mkSection lab h b1) ++ b2.
Proof. unfold section_tokens. simpl. now destruct h. Qed.

Lemma gap_after_snoc (g : bool) (ts : list token) (t : token) :
  gap_after g (ts ++ [t])
  = match t with BlankGap => true | Line _ => false end.
Proof. unfold gap_after. rewrite fold_left_app. reflexivity. Qed.

Section SegmenterFacts.

Variable vocabulary : list (pystr * Category).
Variable body_size : nat.


Lemma scan_concat (ts : list token) :
  forall lab h body g,
    concat (map section_tokens (scan vocabulary body_size lab h body g ts))
    = section_tokens (mkSection lab h (rev body)) ++ ts.
Proof.
  induction ts as [| t rest IH]; intros lab h body g; simpl.
  - reflexivity.
  - destruct t as [l |].
    + destruct (opens vocabulary body_size (is_header lab) g l) as [lab' |];
        simpl.
      * rewrite IH. reflexivity.
      * rewrite IH. simpl rev. rewrite section_tokens_app, <- app_assoc.
        reflexivity.
    + rewrite IH. simpl rev. rewrite section_tokens_app, <- app_assoc.
      reflexivity.
Qed.

Lemma quiet_snoc (ih g : bool) (b : list token) (t : token) :
  quiet vocabulary body_size ih g (b ++ [t])
  = quiet vocabulary body_size ih g b
    && match t with
       | BlankGap => true
       | Line l =>
           match opens vocabulary body_size ih (gap_after g b) l with
           | Some _ => false
           | None => true
           end
       end.
Proof.
  revert g. induction b as [| x b IH]; intros g; simpl.
  - destruct t as [l |]; [| reflexivity].
    unfold gap_after. simpl. now destruct (opens vocabulary body_size ih g l).
  - destruct x as [l0 |].
    + destruct (opens vocabulary body_size ih g l0); [reflexivity |].
      rewrite IH. reflexivity.
    + rewrite IH. reflexivity.
Qed.

Lemma scan_shape (ts : list token) :
  forall lab h body g,
    scan_state_ok vocabulary body_size lab body g ->
    exists more rest,
      scan vocabulary body_size lab h body g ts
      = mkSection lab h (rev body ++ more) :: rest
      /\ headings_follow vocabulary body_size
           (mkSection lab h (rev body ++ more)) rest
      /\ Forall (fun s => quiet vocabulary body_size
                            (is_header (sec_label s)) false (sec_body s)
                          = true)
           (scan vocabulary body_size lab h body g ts).
Proof.
  induction ts as [| t rest IH]; intros lab h body g [Hq Hg]; simpl.
  - exists [], []. rewrite app_nil_r. repeat split.
    constructor; [exact Hq | constructor].
  - destruct t as [l |].
    + destruct (opens vocabulary body_size (is_header lab) g l)
        as [lab' |] eqn:Hop.
      * destruct (IH lab' (Some l) [] false) as [more [rest' [Hs [Hf Hall]]]].
        { split; reflexivity. }
        exists [], (scan vocabulary body_size lab' (Some l) [] false rest).
        rewrite app_nil_r. split; [reflexivity |]. split.
        -- rewrite Hs. simpl. split.
           ++ exists l. split; [reflexivity |]. rewrite Hg. exact Hop.
           ++ exact Hf.
        -- constructor; [exact Hq | exact Hall].
      * destruct (IH lab h (Line l :: body) false)
          as [more [rest' [Hs [Hf Hall]]]].
        { split.
          - simpl rev. rewrite quiet_snoc, Hq, Hg, Hop. reflexivity.
          - simpl rev. now rewrite gap_after_snoc. }
        exists (Line l :: more), rest'. simpl rev in Hs, Hf.
        rewrite <- app_assoc in Hs, Hf. simpl in Hs, Hf.
        split; [exact Hs |]. split; [exact Hf | exact Hall].
    + destruct (IH lab h (BlankGap :: body) true)
        as [more [rest' [Hs [Hf Hall]]]].
      { split.
        - simpl rev. rewrite quiet_snoc, Hq. reflexivity.
        - simpl rev. now rewrite gap_after_snoc. }
      exists (BlankGap :: more), rest'. simpl rev in Hs, Hf.
      rewrite <- app_assoc in Hs, Hf. simpl in Hs, Hf.
      split; [exact Hs |]. split; [exact Hf | exact Hall].
Qed.

End SegmenterFacts.

(** *** Positions in a concatenation *)

Lemma concat_locate {A : Type} (ll : list (list A)) :
  forall (i : nat) (a : A),
    nth_error (concat ll) i = Some a ->
    exists j k l,
      nth_error ll j = Some l
      /\ nth_error l k = Some a
      /\ i = (List.length (concat (firstn j ll)) + k)%nat.
Proof.
  induction ll as [| l0 ll IH]; intros i a Hi; simpl in Hi.
  - destruct i; discriminate Hi.
  - destruct (Nat.lt_ge_cases i (List.length l0)) as [Hlt | Hge].
    + rewrite nth_error_app1 in Hi by exact Hlt.
      exists 0%nat, i, l0. repeat split; assumption.
    + rewrite nth_error_app2 in Hi by exact Hge.
      destruct (IH _ _ Hi) as [j [k [l [Hj [Hk Hpos]]]]].
      exists (S j), k, l. repeat split; try assumption.
      simpl. rewrite length_app. lia.
Qed.

Lemma concat_locate_unique {A : Type} (ll : list (list A)) :
  forall (j k j' k' : nat) (l l' : list A),
    nth_error ll j = Some l -> (k < List.length l)%nat ->
    nth_error ll j' = Some l' -> (k' < List.length l')%nat ->
    (List.length (concat (firstn j ll)) + k
     = List.length (concat (firstn j' ll)) + k')%nat ->
    j = j' /\ k = k'.
Proof.
  induction ll as [| l0 ll IH]; intros j k j' k' l l' Hj Hk Hj' Hk' Heq.
  - destruct j; discriminate Hj.
  - destruct j as [| j], j' as [| j']; simpl in *.
    + split; [reflexivity | lia].
    + injection Hj as <-. rewrite length_app in Heq. lia.
    + injection Hj' as <-. rewrite length_app in Heq. lia.
    + rewrite !length_app in Heq.
      destruct (IH j k j' k' l l' Hj Hk Hj' Hk') as [-> ->]; [lia |].
      split; reflexivity.
Qed.

(** C7: the sections the Segmenter produces partition the normalized token
    sequence.  Read in order, heading line first, they give back the
    sequence, so that every token lies in exactly one section at exactly
    one place.  The first section is the synthetic [Header] with the tokens
    before the first heading; every later section starts at a line the
    Segmenter takes as a heading and runs up to the next such line. *)
Theorem sections_partition_lines
  (vocabulary : list (pystr * Category)) (body_size : nat)
  (ts : list token) :
  concat (map section_tokens (segment vocabulary body_size ts)) = ts
  /\ (forall (i : nat) (t : token),
         nth_error ts i = Some t ->
         exists j k,
           placed (segment vocabulary body_size ts) i j k
           /\ (exists s,
                  nth_error (segment vocabulary body_size ts) j = Some s
                  /\ nth_error (section_tokens s) k = Some t)
           /\ (forall j' k',
                  placed (segment vocabulary body_size ts) i j' k' ->
                  j' = j /\ k' = k))
  /\ (exists body rest,
         segment vocabulary body_size ts = mkSection Header None body :: rest
         /\ headings_follow vocabulary body_size
              (mkSection Header None body) rest)
  /\ Forall (fun s => quiet vocabulary body_size (is_header (sec_label s))
                        false (sec_body s) = true)
       (segment vocabulary body_size ts).
Proof.
  assert (Hcat : concat (map section_tokens (segment vocabulary body_size ts))
                 = ts).
  { unfold segment. rewrite scan_concat. reflexivity. }
  split; [exact Hcat |]. split.
  - intros i t Hi. rewrite <- Hcat in Hi.
    destruct (concat_locate _ _ _ Hi) as [j [k [l [Hj [Hk Hpos]]]]].
    rewrite nth_error_map in Hj.
    destruct (nth_error (segment vocabulary body_size ts) j) as [s |] eqn:Hs;
      [| discriminate Hj].
    simpl in Hj. injection Hj as <-.
    assert (Hlt : (k < List.length (section_tokens s))%nat).
    { apply nth_error_Some. rewrite Hk. discriminate. }
    exists j, k. split; [| split].
    + exists s. unfold offset. rewrite <- firstn_map. auto.
    + exists s. auto.
    + intros j' k' [s' [Hs' [Hlt' Hpos']]].
      unfold offset in Hpos'. rewrite <- firstn_map in Hpos'.
      destruct (concat_locate_unique
                  (map section_tokens (segment vocabulary body_size ts))
                  j' k' j k (section_tokens s') (section_tokens s))
        as [-> ->]; try assumption; try (split; reflexivity).
      * rewrite nth_error_map, Hs'. reflexivity.
      * rewrite nth_error_map, Hs. reflexivity.
      * lia.
  - destruct (scan_shape vocabulary body_size ts Header None [] false)
      as [more [rest [Hs [Hf Hall]]]].
    { split; reflexivity. }
    split.
    + exists more, rest. simpl in Hs, Hf. split; [exact Hs | exact Hf].
    + exact Hall.
Qed.

Lemma sections_partition_lines_witness :
  exists j k,
    placed (segment sample_vocabulary 1 jane_doe) 4 j k
    /\ (exists s,
           nth_error (segment sample_vocabulary 1 jane_doe) j = Some s
           /\ nth_error (section_tokens s) k
              = Some (Line (plain "Software Engineer")))
    /\ (forall j' k',
           placed (segment sample_vocabulary 1 jane_doe) 4 j' k' ->
           j' = j /\ k' = k).
Proof.
  apply (proj1 (proj2 (sections_partition_lines sample_vocabulary 1
                         jane_doe))
           4%nat (Line (plain "Software Engineer"))).
  reflexivity.
Defined.

(** *** Segmenter: which lines are headings *)

Section HeadingFacts.

Variable vocabulary : list (pystr * Category).
Variable body_size : nat.







End HeadingFacts.


Section HeadingRule.

Variable vocabulary : list (pystr * Category).
Variable body_size : nat.



End HeadingRule.



(** How the two structural signals and the [Unknown] fallback show on
    small inputs: a plain matching line right after a BlankGap opens its
    section by the second signal; past the first recognized heading a bold
    line that matches nothing opens an [Unknown] section. *)
Example gap_signal_and_unknown_heading :
  segment sample_vocabulary 1
    [Line (plain "Jane Doe"); BlankGap; Line (plain "Experience");
     Line (plain "Engineer")]
  = [mkSection Header None [Line (plain "Jane Doe"); BlankGap];
     mkSection (Known Experience) (Some (plain "Experience"))
       [Line (plain "Engineer")]]
  /\ segment sample_vocabulary 1
       [Line (plain "Jane Doe"); Line (bold "Experience");
        Line (plain "Engineer"); Line (bold "Projects");
        Line (plain "Parser")]
     = [mkSection Header None [Line (plain "Jane Doe")];
        mkSection (Known Experience) (Some (bold "Experience"))
          [Line (plain "Engineer")];
        mkSection Unknown (Some (bold "Projects"))
          [Line (plain "Parser")]].
Proof. split; reflexivity. Qed.

(** *** Assembler: the name *)

Lemma largest_from_keeps (ls : list NormalizedLine) :
  forall best after,
    (forall l, In l ls -> (nl_size l <= nl_size best)%nat) ->
    largest_from best after ls = (best, after).
Proof.
  induction ls as [| l ls IH]; intros best after Hle; simpl.
  - reflexivity.
  - destruct (Nat.ltb_spec (nl_size best) (nl_size l)) as [Hlt | _].
    + specialize (Hle l (or_introl eq_refl)). lia.
    + apply IH. intros l' Hin. apply Hle. now right.
Qed.

Lemma largest_from_is_largest (ls : list NormalizedLine) :
  forall best after,
    In (fst (largest_from best after ls)) (best :: ls)
    /\ (forall l,
           In l (best :: ls) ->
           (nl_size l <= nl_size (fst (largest_from best after ls)))%nat).
Proof.
  induction ls as [| l ls IH]; intros best after; simpl.
  - split; [now left |]. intros l [<- | []]. lia.
  - destruct (Nat.ltb_spec (nl_size best) (nl_size l)) as [Hlt | Hge].
    + destruct (IH l ls) as [Hin Hmax]. split.
      * right. exact Hin.
      * intros l' [<- | Hl'].
        -- specialize (Hmax l (or_introl eq_refl)). lia.
        -- apply Hmax. exact Hl'.
    + destruct (IH best after) as [Hin Hmax]. split.
      * destruct Hin as [<- | Hin]; [now left | right; now right].
      * intros l' [<- | [<- | Hl']].
        -- apply Hmax. now left.
        -- specialize (Hmax best (or_introl eq_refl)). lia.
        -- apply Hmax. now right.
Qed.

Section AssemblerFacts.

Variable location_like : pystr -> bool.

Lemma assemble_success_name (secs : list Section)
  (outs : list (SectionOutput * list Warning)) (r : ProfileRecord) :
  assemble location_like secs outs = Success r ->
  exists l0 rest,
    header_lines secs = l0 :: rest
    /\ pr_name r = nl_text (fst (largest_from l0 rest rest))
    /\ pr_name r <> [].
Proof.
  unfold assemble, identity.
  destruct (header_lines secs) as [| l0 rest]; [discriminate |].
  destruct (largest_from l0 rest rest) as [name_line after] eqn:Hl.
  destruct (nl_text name_line) as [| c t] eqn:Hn; [discriminate |].
  intros H. injection H as <-. exists l0, rest. rewrite Hl. simpl.
  rewrite Hn. repeat split. discriminate.
Qed.

Lemma assemble_name_of_first (secs : list Section)
  (outs : list (SectionOutput * list Warning))
  (l0 : NormalizedLine) (rest : list NormalizedLine) :
  header_lines secs = l0 :: rest ->
  nl_text l0 <> [] ->
  (forall l, In l rest -> (nl_size l <= nl_size l0)%nat) ->
  exists r,
    assemble location_like secs outs = Success r /\ pr_name r = nl_text l0.
Proof.
  intros Hh Hne Hle. unfold assemble, identity. rewrite Hh.
  rewrite (largest_from_keeps rest l0 rest Hle).
  destruct (nl_text l0) as [| c t] eqn:Hn; [contradiction |].
  eexists. split; reflexivity.
Qed.

End AssemblerFacts.

(** The name rule of the Assembler, on the whole pipeline: the name of a
    record is the text of a largest-style line of the Header
    pseudo-section; it is the text of the first Header line when that line
    is not empty and no other Header line has a larger style. *)
Lemma name_is_largest_header_line
  (vocabulary : list (pystr * Category)) (body_size : nat) (loc : Locale)
  (location_like : pystr -> bool) (ts : list token) :
  (forall r : ProfileRecord,
      parse_lines vocabulary body_size loc location_like ts = Success r ->
      exists l,
        In l (header_lines (segment vocabulary body_size ts))
        /\ pr_name r = nl_text l
        /\ (forall l',
               In l' (header_lines (segment vocabulary body_size ts)) ->
               (nl_size l' <= nl_size l)%nat))
  /\ (forall (l0 : NormalizedLine) (rest : list NormalizedLine),
         header_lines (segment vocabulary body_size ts) = l0 :: rest ->
         nl_text l0 <> [] ->
         (forall l, In l rest -> (nl_size l <= nl_size l0)%nat) ->
         exists r,
           parse_lines vocabulary body_size loc location_like ts = Success r
           /\ pr_name r = nl_text l0).
Proof.
  split.
  - intros r Hr. unfold parse_lines, parse_lines_with in Hr.
    destruct (assemble_success_name _ _ _ _ Hr) as [l0 [rest [Hh [Hn _]]]].
    rewrite Hh.
    destruct (largest_from_is_largest rest l0 rest) as [Hin Hmax].
    exists (fst (largest_from l0 rest rest)). auto.
  - intros l0 rest Hh Hne Hle. unfold parse_lines, parse_lines_with.
    now apply assemble_name_of_first with (rest := rest).
Qed.

(** *** Date Range Parser: explicit and derived durations *)

Lemma derived_needs_bounds (s : option YearMonth) (e : option RangeEnd)
  (d : Duration) :
  derived s e = Some d ->
  exists a b, s = Some a /\ e = Some (EndAt b).
Proof.
  destruct s as [a |]; [| discriminate].
  destruct e as [[b |] |]; try discriminate.
  intros _. now exists a, b.
Qed.

(** *** Date Range Parser: spans by their words *)

Lemma wordb_inv (w : pystr) :
  wordb w = true ->
  w <> [] /\ forallb (fun c => negb (is_space c)) w = true.
Proof.
  destruct w as [| c w]; [discriminate |].
  intros H. split; [discriminate | exact H].
Qed.

Lemma words_from_word (w : pystr) :
  forall cur t,
    forallb (fun c => negb (is_space c)) w = true ->
    words_from cur (w ++ t) = words_from (rev w ++ cur) t.
Proof.
  induction w as [| c w IH]; intros cur t H; [reflexivity |].
  simpl in H. apply andb_prop in H. destruct H as [Hc Hw].
  apply negb_true_iff in Hc. simpl. rewrite Hc.
  rewrite (IH (c :: cur) t Hw), <- app_assoc. reflexivity.
Qed.

(** Words joined by single spaces are read back as they were. *)
Lemma words_text_of (ws : list pystr) :
  Forall (fun w => wordb w = true) ws ->
  words (text_of ws) = ws.
Proof.
  unfold words, text_of.
  induction 1 as [| w rest Hw Hrest IH]; [reflexivity |].
  apply wordb_inv in Hw. destruct Hw as [Hne Hns].
  assert (Hrev : rev w <> []).
  { intros Hr. apply Hne. rewrite <- (rev_involutive w), Hr. reflexivity. }
  destruct rest as [| w' rest].
  - assert (H1 : words_from [] (w ++ []) = [w]).
    { rewrite (words_from_word w [] [] Hns), app_nil_r. simpl.
      destruct (rev w) eqn:Hr; [contradiction |].
      now rewrite <- Hr, rev_involutive. }
    rewrite app_nil_r in H1. exact H1.
  - change (join [32%N] (w :: w' :: rest))
      with (w ++ 32%N :: join [32%N] (w' :: rest)).
    rewrite (words_from_word w [] _ Hns), app_nil_r.
    cbn [words_from is_space]. 
    change (is_space 32) with true. cbv iota.
    destruct (rev w) eqn:Hr; [contradiction |].
    rewrite <- Hr, rev_involutive. f_equal. exact IH.
Qed.

Lemma span_stops {A : Type} (p : A -> bool) (a : list A) (x : A)
  (b : list A) :
  Forall (fun y => p y = true) a ->
  p x = false ->
  span p (a ++ x :: b) = (a, x :: b).
Proof.
  intros Ha Hx. induction Ha as [| y a Hy _ IH]; simpl.
  - now rewrite Hx.
  - now rewrite Hy, IH.
Qed.

Lemma span_all {A : Type} (p : A -> bool) (a : list A) :
  Forall (fun y => p y = true) a -> span p a = (a, []).
Proof.
  induction 1 as [| y a Hy _ IH]; simpl; [reflexivity |].
  now rewrite Hy, IH.
Qed.

Lemma not_opening (range_ws : list pystr) :
  Forall (fun w => opens_annotation w = false) range_ws ->
  Forall (fun w => negb (opens_annotation w) = true) range_ws.
Proof.
  apply Forall_impl. intros w H. now rewrite H.
Qed.

Lemma split_annotation_dot (range_ws ann_ws : list pystr) :
  Forall (fun w => opens_annotation w = false) range_ws ->
  split_annotation (range_ws ++ middle_dot :: ann_ws)
  = (range_ws, Some (map strip_parens ann_ws)).
Proof.
  intros H. unfold split_annotation.
  rewrite (span_stops _ range_ws middle_dot ann_ws (not_opening _ H));
    reflexivity.
Qed.

Lemma split_annotation_paren (range_ws : list pystr) (w0 : pystr)
  (ann_ws : list pystr) :
  Forall (fun w => opens_annotation w = false) range_ws ->
  split_annotation (range_ws ++ (40%N :: w0) :: ann_ws)
  = (range_ws, Some (map strip_parens ((40%N :: w0) :: ann_ws))).
Proof.
  intros H. unfold split_annotation.
  pose proof (span_stops (fun w => negb (opens_annotation w)) range_ws
                (40%N :: w0) ann_ws (not_opening _ H) eq_refl) as Hs.
  unfold pystr in *. rewrite Hs. destruct w0; reflexivity.
Qed.

Lemma split_annotation_none (range_ws : list pystr) :
  Forall (fun w => opens_annotation w = false) range_ws ->
  split_annotation range_ws = (range_ws, None).
Proof.
  intros H. unfold split_annotation.
  now rewrite (span_all _ range_ws (not_opening _ H)).
Qed.

Section AnnotatedSpans.

Variable loc : Locale.
Variables range_ws ann_ws : list pystr.
Variable s : option YearMonth.
Variable e : option RangeEnd.
Variable d : Duration.

Hypothesis range_words : Forall (fun w => wordb w = true) range_ws.
Hypothesis ann_words : Forall (fun w => wordb w = true) ann_ws.
Hypothesis range_plain :
  Forall (fun w => opens_annotation w = false) range_ws.
Hypothesis range_parses : parse_bounds loc range_ws = Some (s, e).
Hypothesis ann_parses :
  parse_duration loc (map strip_parens ann_ws) = Some d.

Lemma parse_with_dot_annotation :
  parse_date_range loc (text_of (range_ws ++ middle_dot :: ann_ws))
  = Some (mkRange s e (Some d)).
Proof.
  unfold parse_date_range. rewrite words_text_of.
  - rewrite (split_annotation_dot range_ws ann_ws range_plain).
    now rewrite range_parses, ann_parses.
  - apply Forall_app. split; [exact range_words |].
    constructor; [reflexivity | exact ann_words].
Qed.

Lemma parse_with_paren_annotation :
  (exists w rest, ann_ws = (40%N :: w) :: rest) ->
  parse_date_range loc (text_of (range_ws ++ ann_ws))
  = Some (mkRange s e (Some d)).
Proof.
  intros [w [rest Hann]]. unfold parse_date_range. rewrite words_text_of.
  - rewrite Hann, (split_annotation_paren range_ws w rest range_plain).
    rewrite <- Hann. now rewrite range_parses, ann_parses.
  - apply Forall_app. split; assumption.
Qed.

Lemma parse_without_annotation :
  parse_date_range loc (text_of range_ws)
  = Some (mkRange s e (derived s e)).
Proof.
  unfold parse_date_range. rewrite (words_text_of range_ws range_words).
  rewrite (split_annotation_none range_ws range_plain).
  now rewrite range_parses.
Qed.

End AnnotatedSpans.

(** C6: a span made of a date range and a duration annotation, after a
    middle dot or in parentheses, parses to the bounds of the range with
    the annotation as its duration, as it reads and whatever the bounds
    would give; the same range without annotation parses to the same
    bounds with the duration derived from them.  A derived duration
    exists only when start and end are both resolved to a year, and the
    duration of a parsed span never comes from anywhere else.  The span
    [Jan 2020 - Present] gives start 2020-01, the present sentinel as end
    and no duration. *)
Theorem explicit_duration_is_authoritative :
  (forall (loc : Locale) (range_ws ann_ws : list pystr)
          (s : option YearMonth) (e : option RangeEnd) (d : Duration),
      Forall (fun w => wordb w = true) range_ws ->
      Forall (fun w => wordb w = true) ann_ws ->
      Forall (fun w => opens_annotation w = false) range_ws ->
      parse_bounds loc range_ws = Some (s, e) ->
      parse_duration loc (map strip_parens ann_ws) = Some d ->
      parse_date_range loc (text_of (range_ws ++ middle_dot :: ann_ws))
      = Some (mkRange s e (Some d))
      /\ ((exists w rest, ann_ws = (40%N :: w) :: rest) ->
          parse_date_range loc (text_of (range_ws ++ ann_ws))
          = Some (mkRange s e (Some d)))
      /\ parse_date_range loc (text_of range_ws)
         = Some (mkRange s e (derived s e)))
  /\ (forall (loc : Locale) (n1 u1 n2 u2 : pystr) (y m : N),
         digits_value n1 = Some y ->
         digits_value n2 = Some m ->
         is_year_unit loc u1 = true ->
         is_month_unit loc u2 = true ->
         parse_duration loc [n1; u1; n2; u2] = Some (mkDuration y m))
  /\ (forall (s : option YearMonth) (e : option RangeEnd) (d : Duration),
         derived s e = Some d ->
         exists a b,
           s = Some a /\ e = Some (EndAt b) /\ derive_duration a b = Some d)
  /\ (forall (loc : Locale) (span_text : pystr) (dr : DateRange),
         parse_date_range loc span_text = Some dr ->
         (forall a, explicit_annotation loc span_text = Some a ->
                    a <> None /\ dr_duration dr = a)
         /\ (explicit_annotation loc span_text = None ->
             dr_duration dr = derived (dr_start dr) (dr_end dr)))
  /\ (forall loc : Locale,
         parse_month loc (lit "Jan") = Some 1%N ->
         is_present loc (lit "Present") = true ->
         parse_date_range loc (lit "Jan 2020 - Present")
         = Some (mkRange (Some (mkYM 2020 (Some 1%N))) (Some Present)
                   None))
  /\ parse_date_range english (lit "Jan 2020 - Present")
     = Some (mkRange (Some (mkYM 2020 (Some 1%N))) (Some Present) None).
Proof.
  split; [| split; [| split; [| split; [| split; [| reflexivity]]]]].
  - intros loc range_ws ann_ws s e d Hr Ha Hp Hb Hd. split; [| split].
    + now apply parse_with_dot_annotation.
    + now apply parse_with_paren_annotation.
    + now apply parse_without_annotation.
  - intros loc n1 u1 n2 u2 y m H1 H2 Hy Hm. unfold parse_duration.
    now rewrite H1, H2, Hy, Hm.
  - intros s e d Hd.
    destruct (derived_needs_bounds s e d Hd) as [a [b [-> ->]]].
    exists a, b. repeat split. exact Hd.
  - intros loc span_text dr. unfold parse_date_range, explicit_annotation.
    destruct (split_annotation (words span_text)) as [range_ws ann].
    simpl snd.
    destruct (parse_bounds loc range_ws) as [[s e] |]; [| discriminate].
    destruct ann as [ann_ws |].
    + destruct (parse_duration loc ann_ws) as [d |] eqn:Hd; [| discriminate].
      intros H. injection H as <-. simpl. split.
      * intros a Ha. injection Ha as <-. split; [discriminate | reflexivity].
      * discriminate.
    + intros H. injection H as <-. simpl. split.
      * discriminate.
      * intros _. reflexivity.
  - intros loc Hjan Hpresent.
    unfold parse_date_range.
    change (words (lit "Jan 2020 - Present"))
      with [lit "Jan"; lit "2020"; [45%N]; lit "Present"].
    change (split_annotation
              [lit "Jan"; lit "2020"; [45%N]; lit "Present"])
      with ([lit "Jan"; lit "2020"; [45%N]; lit "Present"],
            @None (list pystr)).
    cbv iota beta. unfold parse_bounds.
    change (span (fun w => negb (is_separator w))
              [lit "Jan"; lit "2020"; [45%N]; lit "Present"])
      with ([lit "Jan"; lit "2020"], [[45%N]; lit "Present"]).
    cbv iota beta. unfold parse_bound at 1. rewrite Hjan.
    change (parse_year (lit "2020")) with (Some 2020%N).
    cbv iota beta. unfold parse_end. rewrite Hpresent. reflexivity.
Qed.

Lemma explicit_duration_is_authoritative_witness :
  parse_date_range english
    (text_of ([lit "Jan"; lit "2020"; lit "-"; lit "Mar"; lit "2020"]
                ++ middle_dot :: [lit "5"; lit "yrs"; lit "1"; lit "mo"]))
  = Some (mkRange (Some (mkYM 2020 (Some 1%N)))
            (Some (EndAt (mkYM 2020 (Some 3%N))))
            (Some (mkDuration 5 1)))
  /\ derived (Some (mkYM 2020 (Some 1%N)))
       (Some (EndAt (mkYM 2020 (Some 3%N))))
     = Some (mkDuration 0 2).
Proof.
  split; [| reflexivity].
  apply (proj1 explicit_duration_is_authoritative english
           [lit "Jan"; lit "2020"; lit "-"; lit "Mar"; lit "2020"]
           [lit "5"; lit "yrs"; lit "1"; lit "mo"]
           (Some (mkYM 2020 (Some 1%N)))
           (Some (EndAt (mkYM 2020 (Some 3%N))))
           (mkDuration 5 1)).
  - repeat constructor.
  - repeat constructor.
  - repeat constructor.
  - reflexivity.
  - reflexivity.
Defined.

(** *** Experience parser: dropped and kept entries *)

Section ExperienceFacts.

Variable loc : Locale.


Lemma date_line_first_unresolvable (l : NormalizedLine)
  (rest : list NormalizedLine) :
  is_date_line loc l = true ->
  build_experience loc (l :: rest) = None.
Proof.
  intros Hd. unfold build_experience, entry_parts. simpl.
  rewrite Hd. simpl.
  destruct (span (is_date_line loc) rest) as [date_lines desc].
  rewrite Hd. reflexivity.
Qed.

End ExperienceFacts.

Lemma split_entries_concat (loc : Locale) (ts : list token) :
  forall cur g,
    concat (split_entries loc cur g ts) = rev cur ++ lines_of ts.
Proof.
  assert (Hflush : forall cur, concat (flush cur) = rev cur).
  { intros [| l cur]; simpl; [reflexivity | now rewrite app_nil_r]. }
  induction ts as [| t ts IH]; intros cur g; simpl.
  - now rewrite Hflush, app_nil_r.
  - destruct t as [l |].
    + destruct (g && negb (is_date_line loc l) && negb (is_bullet (nl_text l))).
      * rewrite concat_app, Hflush, IH. reflexivity.
      * rewrite IH. simpl. now rewrite <- app_assoc.
    + apply IH.
Qed.

Section ExperienceBlocks.

Variable loc : Locale.







End ExperienceBlocks.



(** The scenario of section 8: a group with only a date range is dropped
    with a warning, its two siblings are kept in source order. *)
Example dropped_entry_scenario :
  parse_experience english
    [Line (plain "Jan 2019 - Feb 2020"); BlankGap;
     Line (plain "Software Engineer"); Line (plain "Acme");
     Line (plain "Jan 2020 - Present"); BlankGap;
     Line (plain "Intern"); Line (plain "Initech"); Line (plain "2018 - 2019")]
  = ([mkExperience (lit "Software Engineer") (lit "Acme") None
        [mkRange (Some (mkYM 2020 (Some 1%N))) (Some Present) None] None;
      mkExperience (lit "Intern") (lit "Initech") None
        [mkRange (Some (mkYM 2018 None)) (Some (EndAt (mkYM 2019 None)))
           (Some (mkDuration 1 0))] None],
     [mkWarning (lit "experience") UnresolvedEntryField]).
Proof. vm_compute. reflexivity. Qed.

(** By the boundary rule a date-range line never opens an entry: a date
    range that stands alone between two BlankGaps after an entry is read as
    a further date range of that entry, not as an entry of its own. *)
Example date_range_after_an_entry_joins_it :
  parse_experience english
    [Line (plain "Software Engineer"); Line (plain "Acme");
     Line (plain "Jan 2020 - Present"); BlankGap;
     Line (plain "Jan 2019 - Feb 2020"); BlankGap;
     Line (plain "Intern"); Line (plain "Initech"); Line (plain "2018 - 2019")]
  = ([mkExperience (lit "Software Engineer") (lit "Acme") None
        [mkRange (Some (mkYM 2020 (Some 1%N))) (Some Present) None;
         mkRange (Some (mkYM 2019 (Some 1%N)))
           (Some (EndAt (mkYM 2020 (Some 2%N))))
           (Some (mkDuration 1 1))] None;
      mkExperience (lit "Intern") (lit "Initech") None
        [mkRange (Some (mkYM 2018 None)) (Some (EndAt (mkYM 2019 None)))
           (Some (mkDuration 1 0))] None],
     []).
Proof. vm_compute. reflexivity. Qed.

(** *** Pipeline: the order of the section parsers does not matter *)

Section ScheduleFacts.

Variable loc : Locale.

Lemma arena_get_absent (secs : list Section) (i : nat) (order : list nat) :
  nth_error secs i = None ->
  arena_get i (run_schedule loc order secs) = None.
Proof.
  intros Hi. induction order as [| j order IH]; simpl; [reflexivity |].
  destruct (nth_error secs j) as [s |] eqn:Hj; simpl; [| exact IH].
  destruct (Nat.eqb_spec i j) as [-> | _]; [congruence | exact IH].
Qed.

Lemma arena_get_run_schedule (secs : list Section) (i : nat)
  (order : list nat) :
  In i order ->
  arena_get i (run_schedule loc order secs)
  = option_map (parse_section loc) (nth_error secs i).
Proof.
  induction order as [| j order IH]; intros Hin; [destruct Hin |].
  simpl. destruct (Nat.eq_dec i j) as [-> | Hne].
  - destruct (nth_error secs j) as [s |] eqn:Hj; simpl.
    + now rewrite Nat.eqb_refl.
    + now apply arena_get_absent.
  - destruct Hin as [-> | Hin]; [contradiction |].
    destruct (nth_error secs j) as [s |]; simpl; [| now apply IH].
    destruct (Nat.eqb_spec i j) as [-> | _]; [contradiction | now apply IH].
Qed.

Lemma flat_map_agree {A B : Type} (f g : A -> list B) (l : list A) :
  (forall a, In a l -> f a = g a) -> flat_map f l = flat_map g l.
Proof.
  induction l as [| a l IH]; intros H; simpl; [reflexivity |].
  rewrite (H a (or_introl eq_refl)), IH; [reflexivity |].
  intros b Hb. apply H. now right.
Qed.

Lemma read_in_order {A B : Type} (f : A -> B) (l : list A) :
  forall pre : list A,
    flat_map (fun i => match nth_error (pre ++ l) i with
                       | Some a => [f a]
                       | None => []
                       end) (seq (List.length pre) (List.length l))
    = map f l.
Proof.
  induction l as [| a l IH]; intros pre; simpl; [reflexivity |].
  rewrite nth_error_app2, Nat.sub_diag by lia. simpl. f_equal.
  specialize (IH (pre ++ [a])).
  rewrite <- app_assoc, length_app in IH. simpl in IH.
  rewrite Nat.add_1_r in IH. exact IH.
Qed.

Lemma collect_run_schedule (secs : list Section) (order : list nat) :
  complete_schedule order (List.length secs) ->
  collect (run_schedule loc order secs) (List.length secs)
  = map (parse_section loc) secs.
Proof.
  intros Hc. unfold collect.
  rewrite <- (read_in_order (parse_section loc) secs []). simpl.
  apply flat_map_agree. intros i Hi. apply in_seq in Hi.
  rewrite arena_get_run_schedule by (apply Hc; lia).
  now destruct (nth_error secs i).
Qed.

End ScheduleFacts.

Lemma complete_schedule_seq (n : nat) : complete_schedule (seq 0 n) n.
Proof. intros i Hi. apply in_seq. lia. Qed.

(** The order in which the section parsers complete does not matter: any
    two complete orders give the same outcome and the same bytes, those of
    the sequential pipeline. *)
Lemma schedule_does_not_matter
  (vocabulary : list (pystr * Category)) (body_size : nat) (loc : Locale)
  (location_like : pystr -> bool) (ts : list token)
  (order1 order2 : list nat) :
  complete_schedule order1
    (List.length (segment vocabulary body_size ts)) ->
  complete_schedule order2
    (List.length (segment vocabulary body_size ts)) ->
  parse_lines_with vocabulary body_size loc location_like order1 ts
  = parse_lines_with vocabulary body_size loc location_like order2 ts
  /\ serialize
       (parse_lines_with vocabulary body_size loc location_like order1 ts)
     = serialize
         (parse_lines_with vocabulary body_size loc location_like order2 ts)
  /\ parse_lines_with vocabulary body_size loc location_like order1 ts
     = parse_lines vocabulary body_size loc location_like ts.
Proof.
  intros H1 H2.
  assert (Heq : forall order,
             complete_schedule order
               (List.length (segment vocabulary body_size ts)) ->
             parse_lines_with vocabulary body_size loc location_like order ts
             = assemble location_like (segment vocabulary body_size ts)
                 (map (parse_section loc)
                    (segment vocabulary body_size ts))).
  { intros order Hc. unfold parse_lines_with.
    now rewrite collect_run_schedule. }
  rewrite (Heq order1 H1), (Heq order2 H2).
  repeat split. unfold parse_lines.
  rewrite (Heq _ (complete_schedule_seq _)). reflexivity.
Qed.

(** The scenario of section 8, end to end. *)
Example jane_doe_scenario :
  parse_lines sample_vocabulary 1 english has_comma jane_doe
  = Success
      (mkProfile (lit "Jane Doe") (Some (lit "Software Engineer at Acme"))
         (Some (lit "San Francisco, CA")) None
         [mkExperience (lit "Software Engineer") (lit "Acme") None
            [mkRange (Some (mkYM 2020 (Some 1%N))) (Some Present)
               (Some (mkDuration 2 0))] None]
         [] [mkSkill (lit "Rocq") None] [] []).
Proof. vm_compute. reflexivity. Qed.

(* ===================================================================== *)
(** * More on [parse_linkedin.py]: what reaches the streams *)
(* ===================================================================== *)

(** Induction on values, through lists and dictionaries. *)
Lemma pyval_nested_ind (P : pyval -> Prop) :
  P PNone ->
  (forall b, P (PBool b)) ->
  (forall z, P (PInt z)) ->
  (forall s, P (PStr s)) ->
  (forall items, Forall P items -> P (PList items)) ->
  (forall items,
      Forall (fun kv : pyval * pyval => P (fst kv) /\ P (snd kv)) items ->
      P (PDict items)) ->
  (forall cls, P (PObj cls)) ->
  forall v, P v.
Proof.
  intros HNone HBool HInt HStr HList HDict HObj.
  exact (fix go (v : pyval) : P v :=
           match v with
           | PNone => HNone
           | PBool b => HBool b
           | PInt z => HInt z
           | PStr s => HStr s
           | PList items =>
               HList items
                 ((fix all (l : list pyval) : Forall P l :=
                     match l with
                     | [] => Forall_nil P
                     | x :: t => Forall_cons x (go x) (all t)
                     end) items)
           | PDict items =>
               HDict items
                 ((fix all (l : list (pyval * pyval))
                     : Forall (fun kv => P (fst kv) /\ P (snd kv)) l :=
                     match l with
                     | [] => Forall_nil _
                     | (k, x) :: t =>
                         Forall_cons (k, x) (conj (go k) (go x)) (all t)
                     end) items)
           | PObj cls => HObj cls
           end).
Qed.

Lemma map_result_inl {A B : Type} (f : A -> result B) (l : list A)
  (e : pyexc) :
  map_result f l = inl e -> exists x, In x l /\ f x = inl e.
Proof.
  induction l as [| x t IH]; simpl; [discriminate |].
  destruct (f x) as [e0 | y] eqn:Hx.
  - intros H. injection H as <-. exists x. split; [now left | exact Hx].
  - destruct (map_result f t) as [e1 | ys]; [| discriminate].
    intros H. injection H as <-.
    destruct (IH eq_refl) as [x' [Hin Hx']].
    exists x'. split; [now right | exact Hx'].
Qed.

Lemma map_result_inr {A B : Type} (f : A -> result B) (l : list A)
  (ys : list B) :
  map_result f l = inr ys ->
  Forall (fun x => exists y, f x = inr y) l.
Proof.
  revert ys. induction l as [| x t IH]; simpl; intros ys H.
  - constructor.
  - destruct (f x) as [e0 | y] eqn:Hx; [discriminate |].
    destruct (map_result f t) as [e1 | ys'] eqn:Ht; [discriminate |].
    constructor; [now exists y | now apply IH with (ys := ys')].
Qed.

Lemma encode_key_error (k : pyval) (e : pyexc) :
  encode_key k = inl e -> exists msg, e = Exc "TypeError" msg.
Proof.
  destruct k as [| [|] | z | s | items | items | cls]; simpl;
    try discriminate; intros H; injection H as <-; eauto.
Qed.

Lemma encode_key_ok_iff (k : pyval) :
  (exists ks, encode_key k = inr ks) <-> key_ok k = true.
Proof.
  destruct k as [| [|] | z | s | items | items | cls]; simpl; split;
    intros H;
    first [ reflexivity
          | discriminate H
          | solve [eauto]
          | destruct H as [ks H]; discriminate H ].
Qed.

(** The encoder raises nothing but [TypeError]. *)
Lemma json_dumps_error (v : pyval) :
  forall e, json_dumps v = inl e -> exists msg, e = Exc "TypeError" msg.
Proof.
  induction v as [| b | z | s | items IH | items IH | cls]
    using pyval_nested_ind; intros e; simpl.
  - discriminate.
  - destruct b; discriminate.
  - discriminate.
  - discriminate.
  - destruct (map_result json_dumps items) as [e0 | parts] eqn:Hm;
      [| discriminate].
    intros H. injection H as <-.
    destruct (map_result_inl _ _ _ Hm) as [x [Hin Hx]].
    rewrite Forall_forall in IH. exact (IH x Hin e0 Hx).
  - match goal with
    | |- context [map_result ?f items] =>
        destruct (map_result f items) as [e0 | parts] eqn:Hm
    end; [| discriminate].
    intros H. injection H as <-.
    destruct (map_result_inl _ _ _ Hm) as [[k x] [Hin Hx]].
    rewrite Forall_forall in IH. destruct (IH (k, x) Hin) as [_ IHx].
    simpl in IHx.
    destruct (encode_key k) as [ek | ks] eqn:Hk.
    + injection Hx as <-. now apply encode_key_error with (k := k).
    + destruct (json_dumps x) as [ex | xs] eqn:Hjx; [| discriminate].
      injection Hx as <-. now apply IHx.
  - intros H. injection H as <-. eauto.
Qed.

(** The encoder accepts a value exactly when it is [serializable]. *)
Lemma json_dumps_ok_iff (v : pyval) :
  dumps_ok v <-> serializable v = true.
Proof.
  unfold dumps_ok.
  induction v as [| b | z | s | items IH | items IH | cls]
    using pyval_nested_ind; simpl.
  - split; eauto.
  - split; [reflexivity |]. destruct b; eauto.
  - split; eauto.
  - split; eauto.
  - rewrite forallb_forall. rewrite Forall_forall in IH. split.
    + intros [s H] x Hin.
      destruct (map_result json_dumps items) as [e0 | parts] eqn:Hm;
        [discriminate |].
      apply IH; [exact Hin |].
      apply map_result_inr in Hm. rewrite Forall_forall in Hm.
      exact (Hm x Hin).
    + intros Hall.
      destruct (map_result_ok json_dumps items) as [parts Hp].
      { apply Forall_forall. intros x Hin. apply IH; auto. }
      rewrite Hp. eauto.
  - rewrite forallb_forall. rewrite Forall_forall in IH. split.
    + intros [s H] [k x] Hin.
      match type of H with
      | context [map_result ?f items] =>
          destruct (map_result f items) as [e0 | parts] eqn:Hm
      end; [discriminate |].
      apply map_result_inr in Hm. rewrite Forall_forall in Hm.
      destruct (Hm (k, x) Hin) as [y Hy]. simpl in Hy.
      destruct (encode_key k) as [ek | ks] eqn:Hk; [discriminate |].
      destruct (json_dumps x) as [ex | xs] eqn:Hjx; [discriminate |].
      apply andb_true_intro. split.
      * apply encode_key_ok_iff. eauto.
      * apply (proj2 (IH (k, x) Hin)). eauto.
    + intros Hall.
      match goal with
      | |- context [map_result ?f items] =>
          destruct (@map_result_ok _ _ f items) as [parts Hp]
      end.
      { apply Forall_forall. intros [k x] Hin.
        specialize (Hall (k, x) Hin). simpl in Hall.
        apply andb_prop in Hall. destruct Hall as [Hk Hx].
        apply encode_key_ok_iff in Hk. destruct Hk as [ks Hk].
        apply (proj2 (IH (k, x) Hin)) in Hx. destruct Hx as [xs Hx].
        simpl in Hx. rewrite Hk, Hx. eauto. }
      rewrite Hp. eauto.
  - split; [intros [s H]; discriminate H | discriminate].
Qed.

(** *** The encoder writes printable ASCII only *)

Lemma hexdigit_printable (d : N) :
  (d < 16)%N -> printable (hexdigit d) = true.
Proof.
  intros Hd. unfold hexdigit, printable.
  destruct (N.ltb_spec d 10); apply andb_true_intro; split;
    apply N.leb_le; lia.
Qed.

Lemma u_escape_printable (n : N) : forallb printable (u_escape n) = true.
Proof.
  unfold u_escape. cbn [forallb].
  rewrite !hexdigit_printable by (apply N.mod_lt; discriminate).
  reflexivity.
Qed.

Lemma escape_char_printable (c : N) :
  forallb printable (escape_char c) = true.
Proof.
  unfold escape_char.
  repeat match goal with
         | |- context [if ?b then _ else _] => destruct b eqn:?
         end;
    try reflexivity.
  - cbn [forallb]. unfold printable.
    match goal with H : _ && _ = true |- _ => rewrite H end. reflexivity.
  - apply u_escape_printable.
  - rewrite forallb_app, !u_escape_printable. reflexivity.
Qed.

Lemma encode_str_printable (s : pystr) :
  forallb printable (encode_str s) = true.
Proof.
  unfold encode_str. cbn [forallb].
  rewrite forallb_app. cbn.
  rewrite andb_true_r.
  induction s as [| c s IH]; [reflexivity |].
  cbn [flat_map]. now rewrite forallb_app, escape_char_printable, IH.
Qed.

Lemma string_of_uint_printable (d : Decimal.uint) :
  forallb printable (lit (NilEmpty.string_of_uint d)) = true.
Proof. induction d; simpl; auto. Qed.

Lemma int_repr_printable (z : Z) : forallb printable (int_repr z) = true.
Proof.
  unfold int_repr, NilZero.string_of_int.
  destruct (Z.to_int z) as [d | d]; unfold NilZero.string_of_uint.
  - destruct d; try apply string_of_uint_printable. reflexivity.
  - change (forallb printable
              (45%N :: lit (match d with
                            | Decimal.Nil => "0"%string
                            | _ => NilEmpty.string_of_uint d
                            end)) = true).
    cbn [forallb]. destruct d; try apply string_of_uint_printable.
    reflexivity.
Qed.

Lemma join_printable (sep : pystr) (parts : list pystr) :
  forallb printable sep = true ->
  Forall (fun p => forallb printable p = true) parts ->
  forallb printable (join sep parts) = true.
Proof.
  intros Hsep. induction 1 as [| p rest Hp _ IH]; [reflexivity |].
  simpl. destruct rest as [| q rest']; [exact Hp |].
  now rewrite !forallb_app, Hp, Hsep, IH.
Qed.

Lemma wrap_printable (a b c : pystr) :
  forallb printable a = true ->
  forallb printable b = true ->
  forallb printable c = true ->
  forallb printable (a ++ b ++ c) = true.
Proof. intros Ha Hb Hc. now rewrite !forallb_app, Ha, Hb, Hc. Qed.

Lemma map_result_all {A B : Type} (f : A -> result B) (Q : B -> Prop)
  (l : list A) :
  Forall (fun x => forall y, f x = inr y -> Q y) l ->
  forall ys, map_result f l = inr ys -> Forall Q ys.
Proof.
  induction 1 as [| x t Hx _ IH]; simpl; intros ys H.
  - injection H as <-. constructor.
  - destruct (f x) as [e0 | y]; [discriminate |].
    destruct (map_result f t) as [e1 | ys']; [discriminate |].
    injection H as <-. constructor; [now apply Hx | now apply IH].
Qed.

Lemma encode_key_printable (k : pyval) (ks : pystr) :
  encode_key k = inr ks -> forallb printable ks = true.
Proof.
  destruct k as [| [|] | z | s | items | items | cls]; simpl;
    try discriminate; intros H; injection H as <-;
    apply encode_str_printable.
Qed.

Lemma json_dumps_printable (v : pyval) :
  forall s, json_dumps v = inr s -> forallb printable s = true.
Proof.
  induction v as [| b | z | s0 | items IH | items IH | cls]
    using pyval_nested_ind; intros s; simpl.
  - intros H. injection H as <-. reflexivity.
  - destruct b; intros H; injection H as <-; reflexivity.
  - intros H. injection H as <-. apply int_repr_printable.
  - intros H. injection H as <-. apply encode_str_printable.
  - destruct (map_result json_dumps items) as [e0 | parts] eqn:Hm;
      [discriminate |].
    intros H. injection H as <-.
    apply (wrap_printable (lit "[") (join (lit ", ") parts) (lit "]"));
      try reflexivity.
    apply join_printable; [reflexivity |].
    apply (map_result_all json_dumps _ items IH parts Hm).
  - match goal with
    | |- context [map_result ?f items] =>
        destruct (map_result f items) as [e0 | parts] eqn:Hm
    end; [discriminate |].
    intros H. injection H as <-.
    apply (wrap_printable (lit "{") (join (lit ", ") parts) (lit "}"));
      try reflexivity.
    apply join_printable; [reflexivity |].
    refine (map_result_all _ _ items _ parts Hm).
    eapply Forall_impl; [| exact IH].
    intros [k x] [_ IHx] y. simpl in IHx.
    destruct (encode_key k) as [ek | ks] eqn:Hk; [discriminate |].
    destruct (json_dumps x) as [ex | xs] eqn:Hx; [discriminate |].
    intros Hy. injection Hy as <-.
    apply (wrap_printable ks (lit ": ") xs);
      [exact (encode_key_printable k ks Hk) | reflexivity
      | exact (IHx xs eq_refl)].
  - discriminate.
Qed.

(** *** Every way a run of the script can end *)

Section ScriptCases.

Variable extract : pystr -> result pyval.

Lemma run_script_passes (prog path : pystr) (e : pyexc) :
  extract path = inl e ->
  is_Exception e = false ->
  run_script extract [prog; path]
  = (terminate (inl e), at_exit (inl e) (mkWorld [] [] [path])).
Proof.
  intros He Hexc.
  unfold run_script, main, bind, try_except_Exception, call_extract, index,
    ret.
  simpl. rewrite He. simpl. rewrite Hexc. reflexivity.
Qed.

Lemma run_script_cases (argv : list pystr) :
  (List.length argv <> 2%nat
   /\ run_script extract argv
      = (Exited 1,
         mkWorld [] (envelope_text usage_message ++ [ch_newline]) []))
  \/ (exists prog path,
         argv = [prog; path]
         /\ ((exists e,
                 extract path = inl e /\ is_Exception e = true
                 /\ run_script extract argv
                    = (Exited 1,
                       mkWorld [] (envelope_text (py_str e) ++ [ch_newline])
                         [path]))
             \/ (exists e,
                    extract path = inl e /\ is_Exception e = false
                    /\ run_script extract argv
                       = (terminate (inl e),
                          at_exit (inl e) (mkWorld [] [] [path])))
             \/ (exists v s,
                    extract path = inr v /\ json_dumps v = inr s
                    /\ run_script extract argv
                       = (Exited 0, mkWorld (s ++ [ch_newline]) [] [path]))
             \/ (exists v msg,
                    extract path = inr v
                    /\ json_dumps v = inl (Exc "TypeError" msg)
                    /\ run_script extract argv
                       = (Exited 1,
                          mkWorld [] (envelope_text msg ++ [ch_newline])
                            [path])))).
Proof.
  destruct (Nat.eq_dec (List.length argv) 2) as [Hlen | Hlen].
  - right.
    destruct argv as [| prog [| path [| x rest]]]; try discriminate Hlen.
    exists prog, path. split; [reflexivity |].
    destruct (extract path) as [e | v] eqn:He.
    + destruct (is_Exception e) eqn:Hexc.
      * left. exists e. repeat split; try assumption.
        now apply run_script_raises.
      * right; left. exists e. repeat split; try assumption.
        now apply run_script_passes.
    + destruct (json_dumps v) as [e | s] eqn:Hv.
      * right; right; right.
        destruct (json_dumps_error v e Hv) as [msg ->].
        exists v, msg. repeat split; try assumption.
        now apply (run_script_unserializable extract prog path v
                     (Exc "TypeError" msg)).
      * right; right; left. exists v, s. repeat split; try assumption.
        now apply run_script_returns with (v := v).
  - left. split; [exact Hlen |]. now apply run_script_wrong_argc.
Qed.

End ScriptCases.

Lemma envelope_printable (msg : pystr) :
  forallb printable (envelope_text msg) = true.
Proof. apply (json_dumps_printable (error_envelope msg)), dumps_envelope. Qed.

(** X1: when the extractor returns a value that [json.dumps] rejects (it
    holds a foreign object, or a dictionary key that is no [str], [int],
    [bool] or [None]), the [TypeError] is caught like a failure of the
    extractor: nothing is printed on the output stream, the error stream
    gets the envelope of the [TypeError] message and the exit status
    is 1. *)
Theorem unserializable_result_is_reported_as_error
  (extract : pystr -> result pyval) (prog path : pystr) (v : pyval) :
  extract path = inr v ->
  serializable v = false ->
  exists msg,
    json_dumps v = inl (Exc "TypeError" msg)
    /\ run_script extract [prog; path]
       = (Exited 1,
          mkWorld [] (envelope_text msg ++ [ch_newline]) [path]).
Proof.
  intros Hv Hser.
  destruct (json_dumps v) as [e | s] eqn:Hd.
  - destruct (json_dumps_error v e Hd) as [msg ->].
    exists msg. split; [reflexivity |].
    now apply (run_script_unserializable extract prog path v
                 (Exc "TypeError" msg)).
  - assert (Hok : serializable v = true).
    { apply json_dumps_ok_iff. now exists s. }
    rewrite Hok in Hser. discriminate Hser.
Qed.

Lemma unserializable_result_is_reported_as_error_witness :
  exists msg,
    json_dumps (PDict [(PStr (lit "name"), PObj "Profile")])
    = inl (Exc "TypeError" msg)
    /\ run_script
         (fun _ => inr (PDict [(PStr (lit "name"), PObj "Profile")]))
         [lit "parse_linkedin.py"; lit "cv.pdf"]
       = (Exited 1,
          mkWorld [] (envelope_text msg ++ [ch_newline]) [lit "cv.pdf"]).
Proof.
  apply (unserializable_result_is_reported_as_error
           (fun _ => inr (PDict [(PStr (lit "name"), PObj "Profile")]))
           (lit "parse_linkedin.py") (lit "cv.pdf")
           (PDict [(PStr (lit "name"), PObj "Profile")]));
    reflexivity.
Defined.



(** X3: a run ends with exit status 0 only in two ways.  Either the script
    was given one argument, the extractor returned a value that
    [json.dumps] accepts and the output stream holds its one line; or the
    extractor itself raised [SystemExit] with the code [None] or an
    integer code of status 0, and nothing was printed. *)
Theorem exit_status_zero_only_if
  (extract : pystr -> result pyval) (argv : list pystr) :
  fst (run_script extract argv) = Exited 0 ->
  exists prog path,
    argv = [prog; path]
    /\ ((exists v s,
            extract path = inr v
            /\ json_dumps v = inr s
            /\ snd (run_script extract argv)
               = mkWorld (s ++ [ch_newline]) [] [path])
        \/ (exists code,
               extract path = inl (SystemExit code)
               /\ (code = CodeNone
                   \/ exists z, code = CodeInt z /\ exit_status z = 0%Z)
               /\ snd (run_script extract argv) = mkWorld [] [] [path])).
Proof.
  intros H0.
  destruct (run_script_cases extract argv)
    as [[_ Hr] | [prog [path [-> Hc]]]].
  - rewrite Hr in H0. discriminate H0.
  - exists prog, path. split; [reflexivity |].
    destruct Hc as [[e [He [Hexc Hr]]] | [[e [He [Hexc Hr]]]
                   | [[v [s [Hv [Hs Hr]]]] | [v [msg [Hv [Hs Hr]]]]]]];
      rewrite Hr in H0 |- *; cbn [fst snd] in H0 |- *;
      try discriminate H0.
    + right.
      destruct e as [cls msg | [| z | text] | cls]; try discriminate.
      * exists CodeNone. repeat split; auto.
      * exists (CodeInt z). simpl in H0. injection H0 as H0.
        repeat split; eauto.
    + left. exists v, s. repeat split; assumption.
Qed.

Lemma exit_status_zero_only_if_witness :
  exists prog path,
    [lit "parse_linkedin.py"; lit "cv.pdf"] = [prog; path]
    /\ ((exists v s,
            (fun _ : pystr => @inl pyexc pyval (SystemExit (CodeInt 256)))
              path = inr v
            /\ json_dumps v = inr s
            /\ snd (run_script (fun _ => inl (SystemExit (CodeInt 256)))
                      [lit "parse_linkedin.py"; lit "cv.pdf"])
               = mkWorld (s ++ [ch_newline]) [] [path])
        \/ (exists code,
               (fun _ : pystr => @inl pyexc pyval (SystemExit (CodeInt 256)))
                 path = inl (SystemExit code)
               /\ (code = CodeNone
                   \/ exists z, code = CodeInt z /\ exit_status z = 0%Z)
               /\ snd (run_script (fun _ => inl (SystemExit (CodeInt 256)))
                         [lit "parse_linkedin.py"; lit "cv.pdf"])
                  = mkWorld [] [] [path])).
Proof.
  apply (exit_status_zero_only_if
           (fun _ => inl (SystemExit (CodeInt 256)))
           [lit "parse_linkedin.py"; lit "cv.pdf"]).
  reflexivity.
Defined.

(** X4: the output stream is written only by a successful run.  Whenever
    anything is on the output stream, the script was given one argument,
    the extractor returned a value that [json.dumps] accepts, the output
    stream holds exactly its one line, the error stream is empty and the
    exit status is 0. *)
Theorem output_means_success
  (extract : pystr -> result pyval) (argv : list pystr) :
  w_stdout (snd (run_script extract argv)) <> [] ->
  exists prog path v s,
    argv = [prog; path]
    /\ extract path = inr v
    /\ json_dumps v = inr s
    /\ run_script extract argv
       = (Exited 0, mkWorld (s ++ [ch_newline]) [] [path]).
Proof.
  intros Hout.
  destruct (run_script_cases extract argv)
    as [[_ Hr] | [prog [path [-> Hc]]]].
  - rewrite Hr in Hout. now contradiction Hout.
  - destruct Hc as [[e [He [Hexc Hr]]] | [[e [He [Hexc Hr]]]
                   | [[v [s [Hv [Hs Hr]]]] | [v [msg [Hv [Hs Hr]]]]]]];
      rewrite Hr in Hout; cbn [snd w_stdout] in Hout.
    + now contradiction Hout.
    + destruct e as [cls msg | [| z | text] | cls];
        now contradiction Hout.
    + exists prog, path, v, s. repeat split; assumption.
    + now contradiction Hout.
Qed.

Lemma output_means_success_witness :
  exists prog path v s,
    [lit "parse_linkedin.py"; lit "cv.pdf"] = [prog; path]
    /\ (fun _ : pystr => @inr pyexc pyval (PList [PInt 1; PNone])) path
       = inr v
    /\ json_dumps v = inr s
    /\ run_script (fun _ => inr (PList [PInt 1; PNone]))
         [lit "parse_linkedin.py"; lit "cv.pdf"]
       = (Exited 0, mkWorld (s ++ [ch_newline]) [] [path]).
Proof.
  apply (output_means_success (fun _ => inr (PList [PInt 1; PNone]))
           [lit "parse_linkedin.py"; lit "cv.pdf"]).
  discriminate.
Defined.

(** X5: whatever the extractor does, the output stream ends up untouched
    or holding exactly one line of printable ASCII closed by the newline.
    With an extractor that raises nothing but instances of [Exception],
    the same holds of the error stream: no raw control character, newline
    or non-ASCII code point of a message or of a returned string reaches a
    stream. *)
Theorem streams_hold_at_most_one_ascii_line
  (extract : pystr -> result pyval) (argv : list pystr) :
  at_most_one_line (w_stdout (snd (run_script extract argv)))
  /\ ((forall path e, extract path = inl e -> is_Exception e = true) ->
      at_most_one_line (w_stderr (snd (run_script extract argv)))).
Proof.
  unfold at_most_one_line.
  destruct (run_script_cases extract argv)
    as [[_ Hr] | [prog [path [-> Hc]]]].
  - rewrite Hr. cbn [fst snd w_stdout w_stderr]. split; [now left |].
    intros _. right.
    eexists. split; [reflexivity | apply envelope_printable].
  - destruct Hc as [[e [He [Hexc Hr]]] | [[e [He [Hno Hr]]]
                   | [[v [s [Hv [Hs Hr]]]] | [v [msg [Hv [Hs Hr]]]]]]];
      rewrite Hr; cbn [fst snd w_stdout w_stderr].
    + split; [now left |]. intros _. right.
      eexists. split; [reflexivity | apply envelope_printable].
    + split.
      * destruct e as [cls msg | [| z | text] | cls]; now left.
      * intros Hexc. rewrite (Hexc path e He) in Hno. discriminate Hno.
    + split; [| intros _; now left]. right.
      eexists. split; [reflexivity |].
      now apply (json_dumps_printable v).
    + split; [now left |]. intros _. right.
      eexists. split; [reflexivity | apply envelope_printable].
Qed.

Lemma streams_hold_at_most_one_ascii_line_witness :
  at_most_one_line
    (w_stderr
       (snd (run_script
               (fun _ => inl (Exc "ValueError" [10%N; 233%N; 9%N]))
               [lit "parse_linkedin.py"; lit "cv.pdf"]))).
Proof.
  apply (proj2 (streams_hold_at_most_one_ascii_line
                  (fun _ => inl (Exc "ValueError" [10%N; 233%N; 9%N]))
                  [lit "parse_linkedin.py"; lit "cv.pdf"])).
  intros path e H. injection H as <-. reflexivity.
Defined.

(** X6: a run consults the extractor at most once, on [sys.argv[1]], and
    depends on nothing else: two extractors that agree on that argument
    give the same run, the program name [sys.argv[0]] plays no part, and
    the extractor is called exactly when there are two arguments, whether
    it then fails or not. *)
Theorem run_reads_only_second_argument :
  (forall (extract1 extract2 : pystr -> result pyval) (argv : list pystr),
      (forall path, nth_error argv 1 = Some path ->
                    extract1 path = extract2 path) ->
      run_script extract1 argv = run_script extract2 argv)
  /\ (forall (extract : pystr -> result pyval) (prog1 prog2 : pystr)
             (rest : list pystr),
         run_script extract (prog1 :: rest)
         = run_script extract (prog2 :: rest))
  /\ (forall (extract : pystr -> result pyval) (argv : list pystr),
         w_calls (snd (run_script extract argv))
         = match argv with
           | [_; path] => [path]
           | _ => []
           end).
Proof.
  split; [| split].
  - intros extract1 extract2 argv Hagree.
    destruct (Nat.eq_dec (List.length argv) 2) as [Hlen | Hlen].
    + destruct argv as [| prog [| path [| x rest]]]; try discriminate Hlen.
      specialize (Hagree path eq_refl).
      unfold run_script, main, bind, try_except_Exception, call_extract,
        index, ret.
      simpl. rewrite Hagree. reflexivity.
    + now rewrite !run_script_wrong_argc.
  - intros extract prog1 prog2 rest.
    destruct (Nat.eq_dec (List.length rest) 1) as [Hlen | Hlen].
    + destruct rest as [| path [| x rest]]; try discriminate Hlen.
      reflexivity.
    + rewrite !run_script_wrong_argc; [reflexivity | |]; simpl; lia.
  - intros extract argv.
    destruct (run_script_cases extract argv)
      as [[Hlen Hr] | [prog [path [-> Hc]]]].
    + rewrite Hr. simpl.
      destruct argv as [| prog [| path [| x rest]]]; try reflexivity.
      now contradiction Hlen.
    + destruct Hc as [[e [He [Hexc Hr]]] | [[e [He [Hexc Hr]]]
                     | [[v [s [Hv [Hs Hr]]]] | [v [msg [Hv [Hs Hr]]]]]]];
        rewrite Hr; try reflexivity.
      destruct e as [cls msg | [| z | text] | cls]; reflexivity.
Qed.

Lemma run_reads_only_second_argument_witness :
  run_script
    (fun p => if pystr_eqb p (lit "cv.pdf") then inr (PInt 1) else inr PNone)
    [lit "a"; lit "cv.pdf"]
  = run_script (fun _ => inr (PInt 1)) [lit "a"; lit "cv.pdf"].
Proof.
  apply (proj1 run_reads_only_second_argument
           (fun p => if pystr_eqb p (lit "cv.pdf")
                     then inr (PInt 1) else inr PNone)
           (fun _ => inr (PInt 1)) [lit "a"; lit "cv.pdf"]).
  intros path H. injection H as <-. reflexivity.
Defined.

(** X7: with an extractor that raises nothing but instances of [Exception],
    the exit status tells which stream was written.  The run ends with
    status 0, one line on the output stream and an empty error stream, or
    with status 1, an empty output stream and one error envelope on the
    error stream; there is no third way. *)
Theorem exit_status_tells_the_stream
  (extract : pystr -> result pyval) (argv : list pystr) :
  (forall path e, extract path = inl e -> is_Exception e = true) ->
  (exists s,
      run_script extract argv
      = (Exited 0,
         mkWorld (s ++ [ch_newline]) []
           (match argv with
            | [_; path] => [path]
            | _ => []
            end)))
  \/ (exists msg,
         run_script extract argv
         = (Exited 1,
            mkWorld [] (envelope_text msg ++ [ch_newline])
              (match argv with
               | [_; path] => [path]
               | _ => []
               end))).
Proof.
  intros Hexc.
  destruct (run_script_cases extract argv)
    as [[Hlen Hr] | [prog [path [-> Hc]]]].
  - right. exists usage_message. rewrite Hr.
    destruct argv as [| prog [| path [| x rest]]]; try reflexivity.
    now contradiction Hlen.
  - destruct Hc as [[e [He [_ Hr]]] | [[e [He [Hno Hr]]]
                   | [[v [s [Hv [Hs Hr]]]] | [v [msg [Hv [Hs Hr]]]]]]].
    + right. exists (py_str e). exact Hr.
    + rewrite (Hexc path e He) in Hno. discriminate Hno.
    + left. exists s. exact Hr.
    + right. exists msg. exact Hr.
Qed.

Lemma exit_status_tells_the_stream_witness :
  (exists s,
      run_script (fun _ => inl (Exc "OSError" (lit "no such file")))
        [lit "parse_linkedin.py"; lit "cv.pdf"]
      = (Exited 0,
         mkWorld (s ++ [ch_newline]) [] [lit "cv.pdf"]))
  \/ (exists msg,
         run_script (fun _ => inl (Exc "OSError" (lit "no such file")))
           [lit "parse_linkedin.py"; lit "cv.pdf"]
         = (Exited 1,
            mkWorld [] (envelope_text msg ++ [ch_newline]) [lit "cv.pdf"])).
Proof.
  apply (exit_status_tells_the_stream
           (fun _ => inl (Exc "OSError" (lit "no such file")))
           [lit "parse_linkedin.py"; lit "cv.pdf"]).
  intros path e H. injection H as <-. reflexivity.
Defined.
